(** * sgpt: the command-line entry point [main] of [sgpt/app.py]

    A shallow embedding of [main] together with the collaborators it
    drives (role registry, completion handler, REPL driver, shell
    execution loop), and the properties of the flag validation, role
    resolution and the execute/describe/abort loop.

    Python values are modelled as follows:
    - [Optional[str]] parameters are [option string]; Python truthiness
      ([if chat], [not prompt]) is [truthy];
    - exceptions are the constructors of [Exception]; a computation is a
      function from the store to a result, the new store and the list of
      effects it performed, in order;
    - console interaction is a list of the lines the user will type. *)

From Stdlib Require Import ZArith QArith Ascii String.
From stdpp Require Import base option strings list gmap pretty.

Set Default Proof Using "Type".

(** ** Python helpers *)

(** Truthiness of an [Optional[str]]: [None] and [''] are falsy. *)
Definition truthy (o : option string) : bool :=
  match o with
  | None => false
  | Some s => negb (String.eqb s "")
  end.

(** [x or ''] for an [Optional[str]]. *)
Definition or_empty (o : option string) : string :=
  if truthy o then default "" o else "".

(** [needle in hay] on strings. *)
Fixpoint str_in (needle hay : string) : bool :=
  String.prefix needle hay ||
  match hay with
  | EmptyString => false
  | String _ hay' => str_in needle hay'
  end.

(** [sum((a, b, c))] on booleans. *)
Definition sum3 (a b c : bool) : Z :=
  Z.b2z a + Z.b2z b + Z.b2z c.

Definition lower_ascii (c : ascii) : ascii :=
  let n := nat_of_ascii c in
  if (65 <=? n)%nat && (n <=? 90)%nat then ascii_of_nat (n + 32) else c.

(** [str.casefold] on the ASCII range. *)
Fixpoint casefold (s : string) : string :=
  match s with
  | EmptyString => EmptyString
  | String c s' => String (lower_ascii c) (casefold s')
  end.

(** ** Command-line parameters of [main]

    The options whose value is consumed by a typer callback before
    [main] runs (version, show_chat, list_chats, create_role, show_role,
    list_roles, install_integration) are never read by the body of
    [main] and are left out. *)
Record Args := {
  prompt : option string;
  model : string;
  temperature : Q;
  top_probability : Q;
  shell : bool;
  describe_shell : bool;
  code : bool;
  editor : bool;
  cache : bool;
  chat : option string;
  image : option string;
  repl : option string;
  tokenize : bool;
  role : option string
}.

(** ** Exceptions *)
Inductive Exception :=
| MissingParameter (param_hint param_type : string)   (* click *)
| BadArgumentUsage (message : string)                 (* click *)
| Abort                                               (* click.Abort *)
| Exit                                                (* typer.Exit *)
| OSError                                             (* open() *)
| TypeError
| KeyError
| ConfigurationError
| NotFoundError (name : string)
| GenerationError.

(** Subclasses of [click.UsageError]: reported to the user as a usage
    error. *)
Definition is_usage_error (e : Exception) : bool :=
  match e with
  | MissingParameter _ _ | BadArgumentUsage _ => true
  | _ => false
  end.

(** Exit status of the process when [typer.run(main)] ends. *)
Definition exit_code_of (e : Exception) : Z :=
  match e with
  | MissingParameter _ _ | BadArgumentUsage _ => 2
  | Exit => 0
  | _ => 1
  end.

Inductive Result (A : Type) :=
| Ok (a : A)
| Err (e : Exception).
Arguments Ok {A} a.
Arguments Err {A} e.

Definition exit_code {A} (r : Result A) : Z :=
  match r with
  | Ok _ => 0
  | Err e => exit_code_of e
  end.

(** ** Roles, messages, requests *)
Inductive RoleKind :=
| default_shell | default_describe_shell | default_code | default_plain
| custom.

Record Role := {
  name : string;
  role_text : string;
  kind : RoleKind
}.

(** The members of the [DefaultRoles] enumeration. *)
Inductive DefaultRoles := DEFAULT | SHELL | DESCRIBE_SHELL | CODE.

Definition kind_of (d : DefaultRoles) : RoleKind :=
  match d with
  | DEFAULT => default_plain
  | SHELL => default_shell
  | DESCRIBE_SHELL => default_describe_shell
  | CODE => default_code
  end.

Inductive MsgRole := system | user | assistant.

Record Message := {
  msg_role : MsgRole;
  content : string;
  image_ref : option string
}.

Record GenerationRequest := {
  messages : list Message;
  req_model : string;
  req_temperature : Q;
  req_top_p : Q;
  req_max_tokens : option Z
}.

#[global] Instance Q_eq_dec : EqDecision Q.
Proof. solve_decision. Defined.
#[global] Instance MsgRole_eq_dec : EqDecision MsgRole.
Proof. solve_decision. Defined.
#[global] Instance Message_eq_dec : EqDecision Message.
Proof. solve_decision. Defined.
#[global] Instance GenerationRequest_eq_dec : EqDecision GenerationRequest.
Proof. solve_decision. Defined.

(** ** Effects *)
Inductive Event :=
| EvStdinRead                                   (* sys.stdin.read() *)
| EvEditor                                      (* get_edited_prompt() *)
| EvOpenFile (path : string)                    (* open(image, "rb") *)
| EvCheckGet (sh de co : bool)                  (* DefaultRoles.check_get *)
| EvSystemRoleGet (rname : string)              (* SystemRole.get *)
| EvGetRole (d : DefaultRoles)                  (* DefaultRoles.X.get_role *)
| EvPrint (text : string)
| EvHandle (r : Role) (chat_id : option string) (* a Completion Handler call *)
| EvRemote (req : GenerationRequest)            (* remote model boundary *)
| EvSessionCommit (chat_id : string)            (* session store append *)
| EvReplStart (chat_id : string)
| EvReplExited
| EvPrompt (dflt : string) (answer : option string)   (* typer.prompt *)
| EvRunCommand (command : string) (status : Z). (* run_command *)

(** ** The environment of one invocation: everything [main] reads but
    never writes. *)
Record Env := {
  stdin_isatty : bool;
  stdin_text : string;
  console : list string;
    (* the lines that input() and typer.prompt get: typed at the
       terminal or, when input is piped and left unread, from the pipe *)
  cfg : gmap string string;
  builtin : DefaultRoles -> string * string;   (* name and text *)
  role_storage : gmap string string;      (* persisted custom roles *)
  image_files : gmap string string;       (* path -> base64 of contents *)
  edited_prompt : string;                 (* what $EDITOR hands back *)
  token_count : string -> option (string -> nat);
    (* tiktoken.encoding_for_model, then the length of encode; None: an
       unknown model *)
  remote : GenerationRequest -> option string;     (* None: failure *)
  child_status : string -> Z              (* exit status of a command *)
}.

(** ** The store: chat sessions and the disk cache. *)
Record Store := {
  durable : gmap string (list Message);
  temp : list Message;
  disk_cache : list (string * GenerationRequest * string)
}.

(** ** The monad of [main]: state, exceptions, and a log of effects. *)
Definition M (A : Type) : Type := Store -> Result A * Store * list Event.

Definition ret {A} (a : A) : M A := fun st => (Ok a, st, []).

Definition bind {A B} (m : M A) (k : A -> M B) : M B :=
  fun st =>
    match m st with
    | (Ok a, st1, ev1) =>
        match k a st1 with
        | (r, st2, ev2) => (r, st2, ev1 ++ ev2)
        end
    | (Err e, st1, ev1) => (Err e, st1, ev1)
    end.

Definition raise {A} (e : Exception) : M A := fun st => (Err e, st, []).
Definition emit (e : Event) : M unit := fun st => (Ok tt, st, [e]).
Definition get_store : M Store := fun st => (Ok st, st, []).
Definition put_store (st : Store) : M unit := fun _ => (Ok tt, st, []).

Notation "x <- m ;; k" := (bind m (fun x => k))
  (at level 100, m at next level, right associativity).
Notation "m ;;; k" := (bind m (fun _ => k))
  (at level 100, right associativity).

Definition result_of {A} (x : Result A * Store * list Event) : Result A := x.1.1.
Definition store_of {A} (x : Result A * Store * list Event) : Store := x.1.2.
Definition events_of {A} (x : Result A * Store * list Event) : list Event := x.2.

(** ** Role registry *)

(** Modelled from the spec: the built-in role table behind
    [DefaultRoles] (sgpt/role.py is not part of the sources). Built-in
    roles are immutable, constant for the process and never touch
    storage; each carries the kind of its enumeration member. *)
Definition builtin_role (env : Env) (d : DefaultRoles) : Role :=
  {| name := (builtin env d).1;
     role_text := (builtin env d).2;
     kind := kind_of d |}.

(** Modelled from the spec: [DefaultRoles.X.get_role()], the built-in
    role of an enumeration member. *)
Definition get_role (env : Env) (d : DefaultRoles) : M Role :=
  emit (EvGetRole d);;;
  ret (builtin_role env d).

(** Modelled from the spec: [DefaultRoles.check_get(shell,
    describe_shell, code)], section 4.1: fails when more than one flag is
    set, otherwise the unique built-in role matching the set flag, or the
    plain default role if none is set. *)
Definition check_get (env : Env) (sh de co : bool) : M Role :=
  emit (EvCheckGet sh de co);;;
  if (1 <? sum3 sh de co)%Z then raise ConfigurationError
  else if sh then ret (builtin_role env SHELL)
  else if de then ret (builtin_role env DESCRIBE_SHELL)
  else if co then ret (builtin_role env CODE)
  else ret (builtin_role env DEFAULT).

(** Modelled from the spec: [SystemRole.get(name)], section 4.1: looks
    the explicit role up in the persisted custom roles and fails with
    NotFoundError if it is absent. *)
Definition SystemRole_get (env : Env) (rname : string) : M Role :=
  emit (EvSystemRoleGet rname);;;
  match role_storage env !! rname with
  | Some text => ret {| name := rname; role_text := text; kind := custom |}
  | None => raise (NotFoundError rname)
  end.

(** ** Chat session store *)

(** Modelled from the spec: [load] of section 4.3; "temp" is the
    in-memory session, an unseen id loads the empty sequence. *)
Definition load (chat_id : string) (st : Store) : list Message :=
  if String.eqb chat_id "temp" then temp st
  else default [] (durable st !! chat_id).

(** Modelled from the spec: [append] of section 4.3; "temp" never
    reaches durable storage. *)
Definition append (chat_id : string) (m : Message) (st : Store) : Store :=
  if String.eqb chat_id "temp" then
    {| durable := durable st; temp := temp st ++ [m];
       disk_cache := disk_cache st |}
  else
    {| durable := <[chat_id := load chat_id st ++ [m]]> (durable st);
       temp := temp st;
       disk_cache := disk_cache st |}.

(** ** Disk cache *)

(** Modelled from the spec: the fingerprint of section 4.2 covers the
    role text and the whole request; it is kept as the tuple itself, the
    digest without collisions. *)
Definition Fingerprint : Type := string * GenerationRequest.

Definition cache_lookup (fp : Fingerprint)
    (c : list (Fingerprint * string)) : option string :=
  snd <$> List.find (fun p => bool_decide (p.1 = fp)) c.

(** Modelled from the spec: the remote model boundary of section 6; a
    failure surfaces as GenerationError, a success is echoed as it
    arrives. *)
Definition remote_call (env : Env) (req : GenerationRequest) : M string :=
  emit (EvRemote req);;;
  match remote env req with
  | Some text => emit (EvPrint text);;; ret text
  | None => raise GenerationError
  end.

(** Modelled from the spec: [get_or_compute] of section 4.2. Without
    caching the computation always runs and the cache is neither read
    nor written; with caching a hit replays the stored text and a miss
    computes, stores and returns. *)
Definition get_or_compute (env : Env) (fp : Fingerprint)
    (req : GenerationRequest) (use_cache : bool) : M string :=
  if use_cache then
    st <- get_store;;
    match cache_lookup fp (disk_cache st) with
    | Some text => ret text
    | None =>
        text <- remote_call env req;;
        put_store {| durable := durable st; temp := temp st;
                     disk_cache := (fp, text) :: disk_cache st |};;;
        ret text
    end
  else remote_call env req.

(** ** Completion handler *)

Definition is_system (m : Message) : bool :=
  match msg_role m with system => true | _ => false end.

(** Modelled from the spec: the Completion Handler of section 4.4
    (sgpt/handlers is not part of the sources), steps 1 to 7. The
    session is committed only after the response is resolved, and only
    when a chat id was supplied. A prompt that is [None] (possible only
    with --repl) gives an empty user content. *)
Definition handle (env : Env) (r : Role) (chat_id : option string)
    (p : option string) (image_url : option string) (mdl : string)
    (temp_ top_p : Q) (caching : bool) (max_tokens : option Z) : M string :=
  emit (EvHandle r chat_id);;;
  st <- get_store;;
  let prior := match chat_id with
               | Some id => load id st
               | None => []
               end in
  let sys := if existsb is_system prior then []
             else [{| msg_role := system; content := role_text r;
                      image_ref := None |}] in
  let usr := {| msg_role := user; content := default "" p;
                image_ref := image_url |} in
  let req := {| messages := sys ++ prior ++ [usr]; req_model := mdl;
                req_temperature := temp_; req_top_p := top_p;
                req_max_tokens := max_tokens |} in
  full_text <- get_or_compute env (role_text r, req) req caching;;
  match chat_id with
  | Some id =>
      st' <- get_store;;
      emit (EvSessionCommit id);;;
      put_store (foldl (fun s m => append id m s) st'
                   (sys ++ [usr; {| msg_role := assistant;
                                    content := full_text;
                                    image_ref := None |}]))
  | None => ret tt
  end;;;
  ret full_text.

(** Modelled from the spec: [DefaultHandler(role).handle(prompt, ...)]
    is the Completion Handler without a chat id. *)
Definition DefaultHandler_handle (env : Env) (r : Role) :=
  handle env r None.

(** Modelled from the spec: [ChatHandler(chat, role).handle(prompt, ...,
    chat_id=chat)] is the Completion Handler on the session [chat]. *)
Definition ChatHandler_handle (env : Env) (chat_id : string) (r : Role) :=
  handle env r (Some chat_id).

(** ** REPL driver *)

(** Modelled from the spec: the REPL Driver of section 4.5. Reading
    takes one console line; an empty line or the end of input moves to
    Exited, where the process hands control back to its caller;
    otherwise Generating calls the Completion Handler on the session and
    Printed writes the text and goes back to Reading. *)
Fixpoint repl_loop (env : Env) (r : Role) (chat_id : string) (mdl : string)
    (temp_ top_p : Q) (caching : bool) (lines : list string) : M unit :=
  match lines with
  | [] => emit EvReplExited;;; raise Exit
  | line :: rest =>
      if String.eqb line "" then emit EvReplExited;;; raise Exit
      else
        full_text <- handle env r (Some chat_id) (Some line) None mdl
                       temp_ top_p caching None;;
        emit (EvPrint full_text);;;
        repl_loop env r chat_id mdl temp_ top_p caching rest
  end.

(** Modelled from the spec: [ReplHandler(repl, role).handle(prompt, ...,
    chat_id=repl)] starts the REPL Driver on the session [repl]. *)
Definition ReplHandler_handle (env : Env) (chat_id : string) (r : Role)
    (p : option string) (mdl : string) (temp_ top_p : Q)
    (caching : bool) : M unit :=
  emit (EvReplStart chat_id);;;
  repl_loop env r chat_id mdl temp_ top_p caching (console env).

(** ** Utilities and the terminal *)

Definition read_stdin (env : Env) : M string :=
  emit EvStdinRead;;;
  ret (stdin_text env).

Definition get_edited_prompt (env : Env) : M string :=
  emit EvEditor;;;
  ret (edited_prompt env).

(** Modelled from the spec: [run_command(command)] of sgpt/utils.py,
    section 4.6: the command runs in a child process, whose exit status
    stays with the log; line 243 drops whatever the call returns. *)
Definition run_command (env : Env) (command : string) : M unit :=
  emit (EvRunCommand command (child_status env command)).

(** [cfg.get(key)], with the configuration taken as a map from keys
    to strings. *)
Definition cfg_get (env : Env) (key : string) : option string :=
  cfg env !! key.

(** [Choice(("e", "d", "a", "y"), case_sensitive=False)]: conversion
    gives the choice that matches the value up to case. *)
Definition choices : list string := ["e"; "d"; "a"; "y"].

Definition Choice_convert (value : string) : option string :=
  List.find (fun c => String.eqb (casefold c) (casefold value)) choices.

(** One line answered at the prompt: an empty line stands for the
    default. *)
Definition prompt_value (dflt line : string) : option string :=
  Choice_convert (if String.eqb line "" then dflt else line).

(** [typer.prompt(text, type=Choice(...), default=dflt)] on the lines
    still to come: a line that is no valid choice is asked again; the
    result is the choice and the lines left. The end of input is
    [None] (click raises Abort). *)
Fixpoint typer_prompt (dflt : string) (lines : list string)
    : option (string * list string) :=
  match lines with
  | [] => None
  | line :: rest =>
      match prompt_value dflt line with
      | Some option => Some (option, rest)
      | None => typer_prompt dflt rest
      end
  end.

(** The [default=] argument of line 237. *)
Definition prompt_default (env : Env) : string :=
  if bool_decide (cfg_get env "DEFAULT_EXECUTE_SHELL_CMD" = Some "true")
  then "e" else "a".

(** [option in ("e", "y")]. *)
Definition is_execute (option : string) : bool :=
  String.eqb option "e" || String.eqb option "y".

(** ** Shell execution loop (lines 233 to 254)

    The body of [while shell and not stdin_passed]; the guard does not
    change between iterations and is tested once in [main]. The
    recursion follows the console lines, so the asking-again of
    [typer.prompt] is part of the same recursion (see
    [shell_loop_typer_prompt]). *)
Fixpoint shell_loop (env : Env) (a : Args) (full_completion : string)
    (lines : list string) : M unit :=
  match lines with
  | [] => emit (EvPrompt (prompt_default env) None);;; raise Abort
  | line :: rest =>
      match prompt_value (prompt_default env) line with
      | None => shell_loop env a full_completion rest
      | Some option =>
          emit (EvPrompt (prompt_default env) (Some option));;;
          if is_execute option then
            run_command env full_completion
          else if String.eqb option "d" then
            r <- get_role env DESCRIBE_SHELL;;
            DefaultHandler_handle env r (Some full_completion) None
              (model a) (temperature a) (top_probability a) (cache a)
              None;;;
            shell_loop env a full_completion rest
          else ret tt
      end
  end.

(** ** [main] *)

Definition vision_model : string := "gpt-4-vision-preview".

Definition flags_message : string :=
  "Only one of --shell, --describe-shell, and --code options can be used at a time.".
Definition chat_repl_message : string :=
  "--chat and --repl options cannot be used together.".
Definition editor_stdin_message : string :=
  "--editor option cannot be used with stdin input.".
Definition image_model_message : string :=
  "--image prompt requires gpt-4-vision-preview model".

(** The two line feeds of the f-string of line 146. *)
Definition newline2 : string := String "010" (String "010" "").

(** Line 143. *)
Definition stdin_passed (env : Env) : bool := negb (stdin_isatty env).

(** Lines 145 and 146: the prompt after the piped input was put in
    front of it. *)
Definition read_prompt (a : Args) (env : Env) : M (option string) :=
  if stdin_passed env && negb (truthy (repl a)) then
    s <- read_stdin env;;
    ret (Some (s +:+ newline2 +:+ or_empty (prompt a)))
  else ret (prompt a).

(** Lines 162 to 175. *)
Definition read_image (a : Args) (env : Env) : M (option string) :=
  if truthy (image a) then
    let img := default "" (image a) in
    if negb (String.eqb (model a) vision_model) then
      raise (BadArgumentUsage image_model_message)
    else if str_in "https://" img || str_in "http://" img then
      ret (Some img)
    else
      emit (EvOpenFile img);;;
      match image_files env !! img with
      | Some b64 => ret (Some ("data:image/jpeg;base64," +:+ b64))
      | None => raise OSError
      end
  else ret None.

(** Lines 186 to 190. *)
Definition resolve_role (a : Args) (env : Env) : M Role :=
  if negb (truthy (role a)) then
    check_get env (shell a) (describe_shell a) (code a)
  else SystemRole_get env (default "" (role a)).

(** Lines 192 to 198: the encoding of the model is looked up first
    (KeyError for an unknown model), then the prompt is encoded
    (TypeError when there is none). *)
Definition print_tokens (a : Args) (env : Env) (p : option string)
    : M unit :=
  match token_count env (model a) with
  | None => raise KeyError
  | Some number_of_tokens =>
      match p with
      | None => raise TypeError
      | Some text =>
          emit (EvPrint ("Estimated Number of Tokens: [bold red]"
                         +:+ pretty (number_of_tokens text)
                         +:+ "[/bold red] :boom:"))
      end
  end.

(** Lines 233 to 254: the guard of the [while] and its body. *)
Definition execute_loop (a : Args) (env : Env) (full_completion : string)
    : M unit :=
  if shell a && negb (stdin_passed env) then
    shell_loop env a full_completion (console env)
  else ret tt.

(** Lines 200 to 254. *)
Definition complete (a : Args) (env : Env) (p image_url : option string)
    (max_tokens : option Z) (role_class : Role) : M unit :=
  (if truthy (repl a) then
     ReplHandler_handle env (default "" (repl a)) role_class p
       (model a) (temperature a) (top_probability a) (cache a)
   else ret tt);;;
  full_completion <-
    (if truthy (chat a) then
       ChatHandler_handle env (default "" (chat a)) role_class p
         image_url (model a) (temperature a) (top_probability a)
         (cache a) max_tokens
     else
       DefaultHandler_handle env role_class p image_url (model a)
         (temperature a) (top_probability a) (cache a) max_tokens);;
  execute_loop a env full_completion.

(** Lines 162 to 254; the [return] of line 198 ends [main]. *)
Definition generate (a : Args) (env : Env) (p : option string) : M unit :=
  image_url <- read_image a env;;
  let max_tokens :=
    if String.eqb (model a) vision_model then Some 4096%Z else None in
  p <- (if editor a then s <- get_edited_prompt env;; ret (Some s)
        else ret p);;
  role_class <- resolve_role a env;;
  if tokenize a then print_tokens a env p
  else complete a env p image_url max_tokens role_class.

(** [main], lines 143 to 160, followed by the rest of its body. *)
Definition main (a : Args) (env : Env) : M unit :=
  p <- read_prompt a env;;
  if negb (truthy p) && negb (editor a) && negb (truthy (repl a)) then
    raise (MissingParameter "PROMPT" "string")
  else if (1 <? sum3 (shell a) (describe_shell a) (code a))%Z then
    raise (BadArgumentUsage flags_message)
  else if truthy (chat a) && truthy (repl a) then
    raise (BadArgumentUsage chat_repl_message)
  else if editor a && stdin_passed env then
    raise (BadArgumentUsage editor_stdin_message)
  else generate a env p.

(** ** Reading the log of effects *)

(** A role lookup of any kind. *)
Definition is_role_resolution (e : Event) : bool :=
  match e with
  | EvCheckGet _ _ _ | EvSystemRoleGet _ | EvGetRole _ => true
  | _ => false
  end.

(** A Completion Handler call or a call of the remote model. *)
Definition is_completion_call (e : Event) : bool :=
  match e with
  | EvHandle _ _ | EvRemote _ => true
  | _ => false
  end.

Definition is_prompt (e : Event) : bool :=
  match e with EvPrompt _ _ => true | _ => false end.

Definition is_run_command (e : Event) : bool :=
  match e with EvRunCommand _ _ => true | _ => false end.

(** The shell execution loop was entered: [typer.prompt] was called. *)
Definition loop_entered (evs : list Event) : bool := existsb is_prompt evs.

(** "Two or more of the shell, describe-shell and code flags". *)
Definition two_or_more (sh de co : bool) : bool :=
  (sh && de) || (sh && co) || (de && co).

(** "At most one of the flags". *)
Definition at_most_one (sh de co : bool) : bool := negb (two_or_more sh de co).

(** The effects of lines 145 and 146. *)
Definition stdin_events (a : Args) (env : Env) : list Event :=
  if stdin_passed env && negb (truthy (repl a)) then [EvStdinRead] else [].

(** The prompt after lines 145 and 146. *)
Definition effective_prompt (a : Args) (env : Env) : option string :=
  if stdin_passed env && negb (truthy (repl a))
  then Some (stdin_text env +:+ newline2 +:+ or_empty (prompt a))
  else prompt a.

(** The check of line 148 in terms of the invocation. *)
Definition prompt_missing (a : Args) (env : Env) : bool :=
  negb (stdin_passed env) && negb (truthy (prompt a)) &&
  negb (editor a) && negb (truthy (repl a)).

(** ** What each part of [main] may log and raise *)

(** Lines 162 to 198: image, editor, role, token count. *)
Definition setup_event (e : Event) : bool :=
  match e with
  | EvOpenFile _ | EvEditor | EvCheckGet _ _ _ | EvSystemRoleGet _
  | EvPrint _ => true
  | _ => false
  end.

Definition setup_error (e : Exception) : bool :=
  match e with
  | BadArgumentUsage _ | OSError | ConfigurationError | NotFoundError _
  | TypeError | KeyError => true
  | _ => false
  end.

Definition handler_event (e : Event) : bool :=
  match e with
  | EvHandle _ _ | EvRemote _ | EvPrint _ | EvSessionCommit _ => true
  | _ => false
  end.

Definition handler_error (e : Exception) : bool :=
  match e with GenerationError => true | _ => false end.

Definition repl_event (e : Event) : bool :=
  match e with
  | EvReplStart _ | EvReplExited => true
  | _ => handler_event e
  end.

Definition repl_error (e : Exception) : bool :=
  match e with Exit | GenerationError => true | _ => false end.

Definition loop_event (e : Event) : bool :=
  match e with
  | EvPrompt _ _ | EvRunCommand _ _ | EvGetRole _ => true
  | _ => handler_event e
  end.

Definition loop_error (e : Exception) : bool :=
  match e with Abort | GenerationError => true | _ => false end.

(** ** Sample invocations *)

Definition sample_builtin (d : DefaultRoles) : string * string :=
  match d with
  | DEFAULT => ("ShellGPT", "You are a helpful assistant.")
  | SHELL => ("Shell Command Generator", "Answer with one shell command.")
  | DESCRIBE_SHELL => ("Shell Command Descriptor", "Describe the command.")
  | CODE => ("Code Generator", "Answer with code only.")
  end.

(** A terminal session: nothing piped, the user types the given lines,
    the remote model answers every request with [ls -la]. *)
Definition terminal (lines : list string) : Env :=
  {| stdin_isatty := true;
     stdin_text := "";
     console := lines;
     cfg := {[ "DEFAULT_EXECUTE_SHELL_CMD" := "false" ]};
     builtin := sample_builtin;
     role_storage := {[ "pirate" := "Talk like a pirate." ]};
     image_files := ∅;
     edited_prompt := "from the editor";
     token_count := fun _ => Some String.length;
     remote := fun _ => Some "ls -la";
     child_status := fun _ => 3%Z |}.

(** The same with [text] piped on standard input. *)
Definition piped (text : string) : Env :=
  {| stdin_isatty := false;
     stdin_text := text;
     console := [];
     cfg := {[ "DEFAULT_EXECUTE_SHELL_CMD" := "false" ]};
     builtin := sample_builtin;
     role_storage := {[ "pirate" := "Talk like a pirate." ]};
     image_files := ∅;
     edited_prompt := "from the editor";
     token_count := fun _ => Some String.length;
     remote := fun _ => Some "ls -la";
     child_status := fun _ => 3%Z |}.

Definition empty_store : Store :=
  {| durable := ∅; temp := []; disk_cache := [] |}.

(** [sgpt PROMPT] with every option at its default. *)
Definition plain_args (p : option string) : Args :=
  {| prompt := p; model := "gpt-4"; temperature := 0; top_probability := 1;
     shell := false; describe_shell := false; code := false;
     editor := false; cache := true; chat := None; image := None;
     repl := None; tokenize := false; role := None |}.

(** [sgpt --shell --code PROMPT]. *)
Definition shell_code_args (p : option string) : Args :=
  {| prompt := p; model := "gpt-4"; temperature := 0; top_probability := 1;
     shell := true; describe_shell := false; code := true;
     editor := false; cache := true; chat := None; image := None;
     repl := None; tokenize := false; role := None |}.

(** [sgpt --chat c --repl r]. *)
Definition chat_repl_args (c r : string) : Args :=
  {| prompt := None; model := "gpt-4"; temperature := 0; top_probability := 1;
     shell := false; describe_shell := false; code := false;
     editor := false; cache := true; chat := Some c; image := None;
     repl := Some r; tokenize := false; role := None |}.

(** [sgpt --shell PROMPT]. *)
Definition shell_args (p : option string) : Args :=
  {| prompt := p; model := "gpt-4"; temperature := 0; top_probability := 1;
     shell := true; describe_shell := false; code := false;
     editor := false; cache := true; chat := None; image := None;
     repl := None; tokenize := false; role := None |}.

(** [sgpt --shell --tokenize PROMPT]. *)
Definition shell_tokenize_args (p : option string) : Args :=
  {| prompt := p; model := "gpt-4"; temperature := 0; top_probability := 1;
     shell := true; describe_shell := false; code := false;
     editor := false; cache := true; chat := None; image := None;
     repl := None; tokenize := true; role := None |}.

(** [sgpt --code --role r PROMPT]. *)
Definition code_role_args (r : string) (p : option string) : Args :=
  {| prompt := p; model := "gpt-4"; temperature := 0; top_probability := 1;
     shell := false; describe_shell := false; code := true;
     editor := false; cache := true; chat := None; image := None;
     repl := None; tokenize := false; role := Some r |}.

(** [sgpt --repl r]. *)
Definition repl_args (r : string) : Args :=
  {| prompt := None; model := "gpt-4"; temperature := 0; top_probability := 1;
     shell := false; describe_shell := false; code := false;
     editor := false; cache := true; chat := None; image := None;
     repl := Some r; tokenize := false; role := None |}.

(** The built-in role the flags select (at most one of them set). *)
Definition flag_role (sh de co : bool) : DefaultRoles :=
  if sh then SHELL else if de then DESCRIBE_SHELL
  else if co then CODE else DEFAULT.

Definition is_check_get (e : Event) : bool :=
  match e with EvCheckGet _ _ _ => true | _ => false end.

(** The prompt handed to the handlers: line 184 replaces it by the
    edited one. *)
Definition final_prompt (a : Args) (env : Env) : option string :=
  if editor a then Some (edited_prompt env) else effective_prompt a env.

(** Lines 177 to 181. *)
Definition max_tokens_of (a : Args) : option Z :=
  if String.eqb (model a) vision_model then Some 4096%Z else None.

(** [main] gets as far as line 233: the checks on the options pass,
    neither --tokenize nor --repl is given, and the image, the role and
    the completion are obtained without an exception. *)
Definition reaches_loop (a : Args) (env : Env) (st : Store) : Prop :=
  prompt_missing a env = false /\
  two_or_more (shell a) (describe_shell a) (code a) = false /\
  truthy (chat a) && truthy (repl a) = false /\
  editor a && stdin_passed env = false /\
  tokenize a = false /\
  truthy (repl a) = false /\
  exists image_url role_class full_completion,
    result_of (read_image a env st) = Ok image_url /\
    result_of (resolve_role a env st) = Ok role_class /\
    result_of
      ((if truthy (chat a) then
          ChatHandler_handle env (default "" (chat a)) role_class
            (final_prompt a env) image_url (model a) (temperature a)
            (top_probability a) (cache a) (max_tokens_of a)
        else
          DefaultHandler_handle env role_class (final_prompt a env)
            image_url (model a) (temperature a) (top_probability a)
            (cache a) (max_tokens_of a)) st) = Ok full_completion.

(** The invocation [a] with another PROMPT argument. *)
Definition with_prompt (a : Args) (p : option string) : Args :=
  {| prompt := p; model := model a; temperature := temperature a;
     top_probability := top_probability a; shell := shell a;
     describe_shell := describe_shell a; code := code a;
     editor := editor a; cache := cache a; chat := chat a;
     image := image a; repl := repl a; tokenize := tokenize a;
     role := role a |}.

(** [sgpt --editor] with the given PROMPT argument. *)
Definition editor_args (p : option string) : Args :=
  {| prompt := p; model := "gpt-4"; temperature := 0; top_probability := 1;
     shell := false; describe_shell := false; code := false;
     editor := true; cache := true; chat := None; image := None;
     repl := None; tokenize := false; role := None |}.

(** [sgpt --image i --model m PROMPT]. *)
Definition image_args (i m : string) (p : option string) : Args :=
  {| prompt := p; model := m; temperature := 0; top_probability := 1;
     shell := false; describe_shell := false; code := false;
     editor := false; cache := true; chat := None; image := Some i;
     repl := None; tokenize := false; role := None |}.

(** [sgpt --chat c --tokenize PROMPT]. *)
Definition chat_tokenize_args (c : string) (p : option string) : Args :=
  {| prompt := p; model := "gpt-4"; temperature := 0; top_probability := 1;
     shell := false; describe_shell := false; code := false;
     editor := false; cache := true; chat := Some c; image := None;
     repl := None; tokenize := true; role := None |}.

Definition is_repl_start (e : Event) : bool :=
  match e with EvReplStart _ => true | _ => false end.

(** The chat id of a handler call or of a session commit is the one
    given with --chat or --repl, or there is none. *)
Definition session_of_invocation (a : Args) (e : Event) : Prop :=
  match e with
  | EvHandle _ None => True
  | EvHandle _ (Some c) | EvSessionCommit c =>
      (truthy (chat a) = true /\ chat a = Some c) \/
      (truthy (repl a) = true /\ repl a = Some c)
  | _ => True
  end.

(** A remote request names the model of the invocation, and is capped
    at 4096 tokens, if at all, only for the vision model. *)
Definition request_of_invocation (a : Args) (e : Event) : Prop :=
  match e with
  | EvRemote req =>
      req_model req = model a /\
      req_temperature req = temperature a /\
      req_top_p req = top_probability a /\
      (req_max_tokens req = None \/
       req_max_tokens req = Some 4096%Z /\ model a = vision_model)
  | _ => True
  end.

(** ** Properties of computations *)

(** Every logged effect satisfies [PV] and every exception raised
    satisfies [PE]. *)
Definition obeys {A} (PV : Event -> Prop) (PE : Exception -> Prop)
    (m : M A) : Prop :=
  forall st, Forall PV (events_of (m st)) /\
             forall e, result_of (m st) = Err e -> PE e.

(** A computation whose log has nothing after the REPL reached Exited,
    and which then ends in the exit of the process. *)
Definition exits_last {A} (m : M A) : Prop :=
  forall st pre post,
    events_of (m st) = pre ++ EvReplExited :: post ->
    post = [] /\ result_of (m st) = Err Exit.

(** A computation that never returns to its caller. *)
Definition never_returns {A} (m : M A) : Prop :=
  forall st, exists e, result_of (m st) = Err e.

(** ** Basic facts *)

Lemma sum3_two_or_more sh de co :
  (1 <? sum3 sh de co)%Z = two_or_more sh de co.
Proof. by destruct sh, de, co. Qed.

Lemma truthy_append_newlines s t :
  truthy (Some (s +:+ newline2 +:+ t)) = true.
Proof. destruct s; reflexivity. Qed.

Lemma bind_Ok {A B} (m : M A) (k : A -> M B) st a st1 ev1 :
  m st = (Ok a, st1, ev1) ->
  bind m k st = ((k a st1).1.1, (k a st1).1.2, ev1 ++ (k a st1).2).
Proof. unfold bind. intros ->. by destruct (k a st1) as [[??]?]. Qed.

Lemma bind_Err {A B} (m : M A) (k : A -> M B) st e st1 ev1 :
  m st = (Err e, st1, ev1) ->
  bind m k st = (Err e, st1, ev1).
Proof. unfold bind. by intros ->. Qed.

Lemma read_prompt_eq a env st :
  read_prompt a env st =
    (Ok (effective_prompt a env), st, stdin_events a env).
Proof.
  unfold read_prompt, stdin_events, effective_prompt.
  by destruct (stdin_passed env && negb (truthy (repl a))).
Qed.

Lemma prompt_check_eq a env :
  negb (truthy (effective_prompt a env))
  && negb (editor a) && negb (truthy (repl a)) = prompt_missing a env.
Proof.
  unfold prompt_missing, effective_prompt.
  destruct (stdin_passed env), (truthy (repl a)); cbn [andb negb];
    rewrite ?truthy_append_newlines, ?andb_false_r; reflexivity.
Qed.

(** [main] up to line 160: which error, if any, the checks on the
    options raise, and otherwise the rest of the body. *)
Lemma main_eq a env st :
  main a env st =
    if prompt_missing a env then
      (Err (MissingParameter "PROMPT" "string"), st, stdin_events a env)
    else if two_or_more (shell a) (describe_shell a) (code a) then
      (Err (BadArgumentUsage flags_message), st, stdin_events a env)
    else if truthy (chat a) && truthy (repl a) then
      (Err (BadArgumentUsage chat_repl_message), st, stdin_events a env)
    else if editor a && stdin_passed env then
      (Err (BadArgumentUsage editor_stdin_message), st, stdin_events a env)
    else
      (result_of (generate a env (effective_prompt a env) st),
       store_of (generate a env (effective_prompt a env) st),
       stdin_events a env ++
         events_of (generate a env (effective_prompt a env) st)).
Proof.
  unfold main.
  erewrite bind_Ok by apply read_prompt_eq.
  rewrite prompt_check_eq, sum3_two_or_more.
  repeat case_match; by rewrite ?app_nil_r.
Qed.

(** ** What a computation may log and raise *)

Section obeys.
Context (PV : Event -> Prop) (PE : Exception -> Prop).

Lemma obeys_ret {A} (x : A) : obeys PV PE (ret x).
Proof. intros st. split; [constructor | discriminate]. Qed.

Lemma obeys_raise {A} e : PE e -> obeys PV PE (@raise A e).
Proof. intros H st. split; [constructor | by intros ? [= <-]]. Qed.

Lemma obeys_emit ev : PV ev -> obeys PV PE (emit ev).
Proof. intros H st. split; [by repeat constructor | discriminate]. Qed.

Lemma obeys_get_store : obeys PV PE get_store.
Proof. intros st. split; [constructor | discriminate]. Qed.

Lemma obeys_put_store st' : obeys PV PE (put_store st').
Proof. intros st. split; [constructor | discriminate]. Qed.

Lemma obeys_bind {A B} (m : M A) (k : A -> M B) :
  obeys PV PE m -> (forall x, obeys PV PE (k x)) -> obeys PV PE (bind m k).
Proof.
  intros Hm Hk st. unfold bind, result_of, events_of in *.
  destruct (Hm st) as [Hev Hr].
  destruct (m st) as [[[x|e] st1] ev1]; simpl in *; last first.
  { split; [exact Hev | intros e0 [= <-]; by apply Hr]. }
  clear Hr.
  destruct (Hk x st1) as [Hev2 Hr2].
  destruct (k x st1) as [[r st2] ev2]; simpl in *.
  split; [by apply Forall_app_2 | done].
Qed.
End obeys.

Ltac obeys_step :=
  lazymatch goal with
  | |- obeys _ _ (ret _) => apply obeys_ret
  | |- obeys _ _ (raise _) => apply obeys_raise
  | |- obeys _ _ (emit _) => apply obeys_emit
  | |- obeys _ _ get_store => apply obeys_get_store
  | |- obeys _ _ (put_store _) => apply obeys_put_store
  | |- obeys _ _ (bind _ _) => apply obeys_bind; [|intros ?]
  | |- obeys _ _ (if ?c then _ else _) => destruct c
  | |- obeys _ _ (match ?x with _ => _ end) => destruct x
  | |- obeys _ _ (let _ := _ in _) => cbv zeta
  end.

Lemma obeys_weaken {A} (PV PV' : Event -> Prop) (PE PE' : Exception -> Prop)
    (m : M A) :
  obeys PV PE m ->
  (forall ev, PV ev -> PV' ev) -> (forall e, PE e -> PE' e) ->
  obeys PV' PE' m.
Proof.
  intros Hm HV HE st. destruct (Hm st) as [Hev Hr].
  split; [by eapply Forall_impl | auto].
Qed.

Ltac obeys_auto := repeat obeys_step; try done.

Lemma read_image_obeys a env :
  obeys (fun ev => setup_event ev = true) (fun e => setup_error e = true)
    (read_image a env).
Proof. unfold read_image. obeys_auto. Qed.

Lemma get_edited_prompt_obeys env :
  obeys (fun ev => setup_event ev = true) (fun e => setup_error e = true)
    (get_edited_prompt env).
Proof. unfold get_edited_prompt. obeys_auto. Qed.

Lemma resolve_role_obeys a env :
  obeys (fun ev => setup_event ev = true) (fun e => setup_error e = true)
    (resolve_role a env).
Proof. unfold resolve_role, check_get, SystemRole_get. obeys_auto. Qed.

Lemma print_tokens_obeys a env p :
  obeys (fun ev => setup_event ev = true) (fun e => setup_error e = true)
    (print_tokens a env p).
Proof. unfold print_tokens. obeys_auto. Qed.

Lemma handle_obeys env r chat_id p image_url mdl t tp caching mt :
  obeys (fun ev => handler_event ev = true)
        (fun e => handler_error e = true)
    (handle env r chat_id p image_url mdl t tp caching mt).
Proof. unfold handle, get_or_compute, remote_call. obeys_auto. Qed.

Lemma repl_loop_obeys env r chat_id mdl t tp caching lines :
  obeys (fun ev => repl_event ev = true) (fun e => repl_error e = true)
    (repl_loop env r chat_id mdl t tp caching lines).
Proof.
  induction lines as [|line rest IH]; simpl; [obeys_auto|].
  destruct (String.eqb line ""); [obeys_auto|].
  apply obeys_bind; [|intros full_text; obeys_auto].
  eapply obeys_weaken; [apply handle_obeys| |];
    [by intros [] | by intros []].
Qed.

Lemma shell_loop_obeys env a fc lines :
  obeys (fun ev => loop_event ev = true) (fun e => loop_error e = true)
    (shell_loop env a fc lines).
Proof.
  induction lines as [|line rest IH]; simpl; [obeys_auto|].
  destruct (prompt_value _ line) as [option|]; [|done].
  unfold run_command, get_role, DefaultHandler_handle.
  obeys_auto.
  eapply obeys_weaken; [apply handle_obeys| |];
    [by intros [] | by intros []].
Qed.

(** Everything [generate] may log and raise, by the part it comes
    from. *)
Lemma generate_obeys (PV : Event -> Prop) (PE : Exception -> Prop) a env p :
  (forall ev, setup_event ev || repl_event ev || loop_event ev = true ->
              PV ev) ->
  (forall e, setup_error e || repl_error e || loop_error e = true -> PE e) ->
  obeys PV PE (generate a env p).
Proof.
  intros HV HE.
  assert (Hsetup : forall A (m : M A),
    obeys (fun ev => setup_event ev = true)
          (fun e => setup_error e = true) m -> obeys PV PE m).
  { intros A m Hm. eapply obeys_weaken; [exact Hm| |].
    - intros ev H. apply HV. by rewrite H.
    - intros e H. apply HE. by rewrite H. }
  assert (Hhandle : forall A (m : M A),
    obeys (fun ev => handler_event ev = true)
          (fun e => handler_error e = true) m -> obeys PV PE m).
  { intros A m Hm. eapply obeys_weaken; [exact Hm| |].
    - intros ev H. apply HV. destruct ev; try done.
    - intros e H. apply HE. by destruct e. }
  unfold generate, complete, execute_loop.
  apply obeys_bind; [apply Hsetup, read_image_obeys|intros image_url].
  cbv zeta.
  apply obeys_bind.
  { destruct (editor a); [|apply obeys_ret].
    apply obeys_bind; [apply Hsetup, get_edited_prompt_obeys|].
    intros; apply obeys_ret. }
  intros p'.
  apply obeys_bind; [apply Hsetup, resolve_role_obeys|intros role_class].
  destruct (tokenize a); [apply Hsetup, print_tokens_obeys|].
  apply obeys_bind.
  { destruct (truthy (repl a)); [|apply obeys_ret].
    unfold ReplHandler_handle.
    apply obeys_bind; [apply obeys_emit; by apply HV|intros _].
    eapply obeys_weaken; [apply repl_loop_obeys| |].
    - intros ev H. apply HV. by rewrite H, orb_true_r.
    - intros e H. apply HE. by rewrite H, orb_true_r. }
  intros _.
  apply obeys_bind.
  { destruct (truthy (chat a)); apply Hhandle, handle_obeys. }
  intros full_completion.
  destruct (shell a && negb (stdin_passed env)); [|apply obeys_ret].
  eapply obeys_weaken; [apply shell_loop_obeys| |].
  - intros ev H. apply HV. by rewrite H, orb_true_r.
  - intros e H. apply HE. by rewrite H, orb_true_r.
Qed.

Lemma generate_no_missing_parameter a env p st h t :
  result_of (generate a env p st) <> Err (MissingParameter h t).
Proof.
  intros H.
  destruct (generate_obeys (fun _ => True)
              (fun e => forall h t, e <> MissingParameter h t) a env p)
    with (st := st) as [_ Hr]; [done | by intros [] | ].
  by eapply Hr.
Qed.

(** ** The checks on the options (lines 143 to 160) *)

(** C10: with no prompt argument, nothing piped, no --editor and no
    --repl, [main] raises MissingParameter for PROMPT having performed
    no effect at all (no role lookup, no completion call). With piped
    input and no --repl, the prompt becomes the piped text, two line
    feeds and the prompt argument (or the empty string); it is never
    empty, so the check of line 148 passes and [main] does not end in
    MissingParameter. *)
Theorem missing_prompt_rejected (a : Args) (env : Env) (st : Store) :
  truthy (repl a) = false ->
  (stdin_passed env = false -> truthy (prompt a) = false ->
   editor a = false ->
     main a env st = (Err (MissingParameter "PROMPT" "string"), st, []) /\
     existsb is_role_resolution (events_of (main a env st)) = false /\
     existsb is_completion_call (events_of (main a env st)) = false) /\
  (stdin_passed env = true ->
     read_prompt a env st =
       (Ok (Some (stdin_text env +:+ newline2 +:+ or_empty (prompt a))),
        st, [EvStdinRead]) /\
     negb (truthy (Some (stdin_text env +:+ newline2 +:+ or_empty (prompt a))))
       && negb (editor a) && negb (truthy (repl a)) = false /\
     result_of (main a env st) <> Err (MissingParameter "PROMPT" "string")).
Proof.
  intros Hrepl. split.
  - intros Hin Hp He.
    rewrite main_eq. unfold prompt_missing, stdin_events.
    by rewrite Hin, Hp, He, Hrepl.
  - intros Hin. split_and!.
    + rewrite read_prompt_eq. unfold stdin_events, effective_prompt.
      by rewrite Hin, Hrepl.
    + by rewrite truthy_append_newlines.
    + rewrite main_eq. unfold prompt_missing. rewrite Hin. cbn [negb andb].
      repeat case_match; try done.
      apply generate_no_missing_parameter.
Qed.

Lemma missing_prompt_rejected_witness :
  main (plain_args None) (terminal []) empty_store =
    (Err (MissingParameter "PROMPT" "string"), empty_store, []) /\
  read_prompt (plain_args (Some "explain")) (piped "ls -la") empty_store =
    (Ok (Some ("ls -la" +:+ newline2 +:+ "explain")), empty_store,
     [EvStdinRead]).
Proof.
  split.
  - apply (missing_prompt_rejected (plain_args None) (terminal [])
             empty_store); reflexivity.
  - apply (missing_prompt_rejected (plain_args (Some "explain"))
             (piped "ls -la") empty_store); reflexivity.
Defined.

(** C1: whenever two or more of --shell, --describe-shell and --code
    are set, [main] ends in a click usage error (exit status 2): the
    BadArgumentUsage of line 152, or the MissingParameter of line 149
    when the prompt is missing as well. The store is untouched and the
    only effect that can have happened is reading the piped input: no
    role was looked up and no completion call was made. *)
Theorem conflicting_flags_rejected (a : Args) (env : Env) (st : Store) :
  two_or_more (shell a) (describe_shell a) (code a) = true ->
  main a env st =
    (Err (if prompt_missing a env then MissingParameter "PROMPT" "string"
          else BadArgumentUsage flags_message),
     st, stdin_events a env) /\
  (exists e, result_of (main a env st) = Err e /\ is_usage_error e = true) /\
  exit_code (result_of (main a env st)) = 2%Z /\
  existsb is_role_resolution (events_of (main a env st)) = false /\
  existsb is_completion_call (events_of (main a env st)) = false.
Proof.
  intros Hflags. rewrite main_eq, Hflags. unfold stdin_events.
  destruct (prompt_missing a env),
    (stdin_passed env && negb (truthy (repl a))); naive_solver.
Qed.

Lemma conflicting_flags_rejected_witness :
  main (shell_code_args (Some "list files")) (terminal []) empty_store =
    (Err (BadArgumentUsage flags_message), empty_store, []).
Proof.
  apply (conflicting_flags_rejected (shell_code_args (Some "list files"))
           (terminal []) empty_store).
  reflexivity.
Defined.

(** C9: whenever both --chat and --repl carry an identifier, [main]
    ends in a BadArgumentUsage (exit status 2) without any effect: the
    one of line 157, or the one of line 152 when the flags conflict as
    well. No role was looked up and no completion call was made. *)
Theorem chat_and_repl_rejected (a : Args) (env : Env) (st : Store) :
  truthy (chat a) = true -> truthy (repl a) = true ->
  main a env st =
    (Err (BadArgumentUsage
            (if two_or_more (shell a) (describe_shell a) (code a)
             then flags_message else chat_repl_message)), st, []) /\
  (exists e, result_of (main a env st) = Err e /\ is_usage_error e = true) /\
  exit_code (result_of (main a env st)) = 2%Z /\
  existsb is_role_resolution (events_of (main a env st)) = false /\
  existsb is_completion_call (events_of (main a env st)) = false.
Proof.
  intros Hchat Hrepl. rewrite main_eq.
  unfold prompt_missing, stdin_events.
  rewrite Hchat, Hrepl, !andb_false_r. cbn [andb].
  destruct (two_or_more _ _ _); naive_solver.
Qed.

Lemma chat_and_repl_rejected_witness :
  main (chat_repl_args "work" "work") (terminal ["hello"]) empty_store =
    (Err (BadArgumentUsage chat_repl_message), empty_store, []).
Proof.
  apply (chat_and_repl_rejected (chat_repl_args "work" "work")
           (terminal ["hello"]) empty_store); reflexivity.
Defined.

(** ** Role resolution (lines 186 to 190) *)

(** C2: with at most one of the three flags set, role resolution is a
    function of the flags and the role name alone and always has an
    outcome, leaving the store as it was. A role name that is given
    (not empty) is looked up by [SystemRole.get] and [check_get] is not
    called. Without one, [check_get] returns a built-in role [d], and [d]
    is the shell role exactly when --shell is set, the describe-shell
    role exactly when --describe-shell is set, the code role exactly
    when --code is set, and the plain default exactly when none is. *)
Theorem role_resolution (a : Args) (env : Env) (st : Store) :
  at_most_one (shell a) (describe_shell a) (code a) = true ->
  (forall a' st',
     shell a' = shell a -> describe_shell a' = describe_shell a ->
     code a' = code a -> role a' = role a ->
     result_of (resolve_role a' env st') = result_of (resolve_role a env st) /\
     events_of (resolve_role a' env st') = events_of (resolve_role a env st)) /\
  store_of (resolve_role a env st) = st /\
  (truthy (role a) = true ->
     exists n, role a = Some n /\
       events_of (resolve_role a env st) = [EvSystemRoleGet n] /\
       existsb is_check_get (events_of (resolve_role a env st)) = false /\
       result_of (resolve_role a env st) =
         match role_storage env !! n with
         | Some text => Ok {| name := n; role_text := text; kind := custom |}
         | None => Err (NotFoundError n)
         end) /\
  (truthy (role a) = false ->
     exists d,
       resolve_role a env st =
         (Ok (builtin_role env d), st,
          [EvCheckGet (shell a) (describe_shell a) (code a)]) /\
       kind (builtin_role env d) = kind_of d /\
       (shell a = true <-> d = SHELL) /\
       (describe_shell a = true <-> d = DESCRIBE_SHELL) /\
       (code a = true <-> d = CODE) /\
       (shell a || describe_shell a || code a = false <-> d = DEFAULT)).
Proof.
  intros Hone. split_and!.
  - intros a' st' Hs Hd Hc Hr. unfold resolve_role.
    rewrite Hs, Hd, Hc, Hr.
    unfold SystemRole_get, check_get, bind, emit, ret, raise,
      result_of, events_of.
    destruct (truthy (role a)); simpl.
    + by destruct (role_storage env !! default "" (role a)).
    + destruct (1 <? sum3 (shell a) (describe_shell a) (code a))%Z,
        (shell a), (describe_shell a), (code a); done.
  - unfold resolve_role, SystemRole_get, check_get, bind, emit, ret, raise,
      store_of.
    destruct (truthy (role a)); simpl.
    + by destruct (role_storage env !! default "" (role a)).
    + destruct (1 <? sum3 (shell a) (describe_shell a) (code a))%Z,
        (shell a), (describe_shell a), (code a); done.
  - intros Hrole. destruct (role a) as [n|] eqn:Hn; [|done].
    exists n. unfold resolve_role. rewrite Hn, Hrole. simpl.
    unfold SystemRole_get, bind, emit, ret, raise.
    by destruct (role_storage env !! n).
  - intros Hrole.
    exists (flag_role (shell a) (describe_shell a) (code a)).
    unfold resolve_role, check_get. rewrite Hrole, sum3_two_or_more.
    unfold at_most_one in Hone. apply negb_true_iff in Hone.
    rewrite Hone. simpl.
    destruct (shell a), (describe_shell a), (code a); try done;
      (split_and!; [done..| | | |]; split; done).
Qed.

Lemma role_resolution_witness :
  (exists d,
     resolve_role (shell_args (Some "list files")) (terminal []) empty_store =
       (Ok (builtin_role (terminal []) d), empty_store,
        [EvCheckGet true false false]) /\
     d = SHELL) /\
  result_of (resolve_role (code_role_args "pirate" (Some "sort a list"))
               (terminal []) empty_store) =
    Ok {| name := "pirate"; role_text := "Talk like a pirate.";
          kind := custom |}.
Proof.
  split.
  - destruct (role_resolution (shell_args (Some "list files")) (terminal [])
                empty_store eq_refl) as (_ & _ & _ & H).
    destruct (H eq_refl) as (d & Heq & _ & Hsh & _).
    exists d. split; [exact Heq | by apply Hsh].
  - destruct (role_resolution (code_role_args "pirate" (Some "sort a list"))
                (terminal []) empty_store eq_refl) as (_ & _ & H & _).
    destruct (H eq_refl) as (n & Hn & _ & _ & Hres).
    injection Hn as <-. rewrite Hres. reflexivity.
Defined.

(** ** The REPL session (lines 200 to 209) *)

Lemma app_eq_split_notin {A} (x : A) (l1 l2 pre post : list A) :
  l1 ++ l2 = pre ++ x :: post -> x ∉ l1 ->
  exists pre', pre = l1 ++ pre' /\ l2 = pre' ++ x :: post.
Proof.
  revert pre. induction l1 as [|y l1 IH]; intros pre Heq Hnotin.
  - by exists pre.
  - destruct pre as [|z pre]; simplify_eq/=.
    + exfalso. apply Hnotin. by left.
    + destruct (IH pre) as (pre' & -> & ->); [done| |].
      * intros Hin. apply Hnotin. by right.
      * by exists pre'.
Qed.

Lemma Forall_not_exited (P : Event -> bool) (evs : list Event) :
  P EvReplExited = false -> Forall (fun ev => P ev = true) evs ->
  EvReplExited ∉ evs.
Proof.
  intros HP Hall Hin. rewrite Forall_forall in Hall.
  apply Hall in Hin. congruence.
Qed.

Lemma exits_last_quiet {A} (P : Event -> bool) PE (m : M A) :
  P EvReplExited = false ->
  obeys (fun ev => P ev = true) PE m -> exits_last m.
Proof.
  intros HP Hm st pre post Heq. exfalso.
  destruct (Hm st) as [Hall _].
  apply (Forall_not_exited P _ HP Hall).
  rewrite Heq. set_solver.
Qed.

Lemma exits_last_bind_quiet {A B} (P : Event -> bool) PE
    (m : M A) (k : A -> M B) :
  P EvReplExited = false ->
  obeys (fun ev => P ev = true) PE m ->
  (forall x, exits_last (k x)) -> exits_last (bind m k).
Proof.
  intros HP Hm Hk st pre post.
  destruct (Hm st) as [Hall _]. apply (Forall_not_exited P _ HP) in Hall.
  unfold bind, events_of, result_of in *.
  destruct (m st) as [[[x|e] st1] ev1]; simpl in *.
  - specialize (Hk x st1 ). unfold events_of, result_of in Hk.
    destruct (k x st1) as [[r st2] ev2]; simpl in *.
    intros Heq.
    destruct (app_eq_split_notin _ _ _ _ _ Heq Hall) as (pre' & _ & Heq2).
    by apply (Hk pre' post).
  - intros ->. exfalso. apply Hall. set_solver.
Qed.

Lemma exits_last_bind_never_returns {A B} (m : M A) (k : A -> M B) :
  exits_last m -> never_returns m -> exits_last (bind m k).
Proof.
  intros Hm Hnever st pre post.
  specialize (Hm st pre post). destruct (Hnever st) as [e He].
  unfold bind, events_of, result_of in *.
  destruct (m st) as [[[x|e'] st1] ev1]; simpl in *; [done|].
  intros Heq. destruct (Hm Heq) as [-> [= ->]]. done.
Qed.

Lemma never_returns_bind_l {A B} (m : M A) (k : A -> M B) :
  never_returns m -> never_returns (bind m k).
Proof.
  intros Hm st. destruct (Hm st) as [e He].
  unfold bind, result_of in *.
  destruct (m st) as [[[x|e'] st1] ev1]; simplify_eq/=. by exists e.
Qed.

Lemma never_returns_bind_r {A B} (m : M A) (k : A -> M B) :
  (forall x, never_returns (k x)) -> never_returns (bind m k).
Proof.
  intros Hk st. unfold bind, result_of.
  destruct (m st) as [[[x|e'] st1] ev1]; simpl; [|by eexists].
  destruct (Hk x st1) as [e He]. unfold result_of in He.
  destruct (k x st1) as [[r st2] ev2]; simplify_eq/=. by exists e.
Qed.

Lemma never_returns_raise {A} e : never_returns (@raise A e).
Proof. intros st. by exists e. Qed.

(** Exited: the process leaves and nothing else is logged. *)
Lemma repl_exit_exits_last : exits_last (emit EvReplExited;;; @raise unit Exit).
Proof.
  intros st pre post. cbn.
  destruct pre as [|? [|??]]; intros; simplify_eq/=; done.
Qed.

(** The REPL never returns to [main]: it leaves by Exited or by a
    failed generation. *)
Lemma repl_loop_never_returns env r chat_id mdl t tp caching lines :
  never_returns (repl_loop env r chat_id mdl t tp caching lines).
Proof.
  induction lines as [|line rest IH]; simpl.
  - apply never_returns_bind_r; intros _. apply never_returns_raise.
  - destruct (String.eqb line "").
    + apply never_returns_bind_r; intros _. apply never_returns_raise.
    + apply never_returns_bind_r; intros full_text.
      apply never_returns_bind_r; intros _. apply IH.
Qed.

Lemma repl_loop_exits_last env r chat_id mdl t tp caching lines :
  exits_last (repl_loop env r chat_id mdl t tp caching lines).
Proof.
  induction lines as [|line rest IH]; simpl.
  - apply repl_exit_exits_last.
  - destruct (String.eqb line ""); [apply repl_exit_exits_last|].
    eapply (exits_last_bind_quiet handler_event);
      [done | apply handle_obeys | intros full_text].
    eapply (exits_last_bind_quiet handler_event (fun _ => True));
      [done | by apply obeys_emit | intros _; apply IH].
Qed.

Lemma ReplHandler_handle_never_returns env chat_id r p mdl t tp caching :
  never_returns (ReplHandler_handle env chat_id r p mdl t tp caching).
Proof.
  apply never_returns_bind_r; intros _. apply repl_loop_never_returns.
Qed.

Lemma ReplHandler_handle_exits_last env chat_id r p mdl t tp caching :
  exits_last (ReplHandler_handle env chat_id r p mdl t tp caching).
Proof.
  eapply (exits_last_bind_quiet
            (fun ev => match ev with EvReplStart _ => true | _ => false end)
            (fun _ => True));
    [done | by apply obeys_emit | intros _; apply repl_loop_exits_last].
Qed.

Lemma complete_exits_last a env p image_url max_tokens role_class :
  exits_last (complete a env p image_url max_tokens role_class).
Proof.
  unfold complete. destruct (truthy (repl a)).
  - apply exits_last_bind_never_returns;
      [apply ReplHandler_handle_exits_last
      |apply ReplHandler_handle_never_returns].
  - eapply (exits_last_bind_quiet handler_event (fun _ => True));
      [done | apply obeys_ret | intros _].
    eapply (exits_last_bind_quiet handler_event);
      [done | destruct (truthy (chat a)); apply handle_obeys
      | intros full_completion].
    unfold execute_loop.
    destruct (shell a && negb (stdin_passed env)).
    + eapply (exits_last_quiet loop_event); [done|apply shell_loop_obeys].
    + eapply (exits_last_quiet loop_event (fun _ => True));
        [done|apply obeys_ret].
Qed.

Lemma generate_exits_last a env p : exits_last (generate a env p).
Proof.
  unfold generate.
  eapply (exits_last_bind_quiet setup_event);
    [done | apply read_image_obeys | intros image_url]. cbv zeta.
  eapply (exits_last_bind_quiet setup_event (fun e => setup_error e = true));
    [done | | intros p'].
  { destruct (editor a); [|apply obeys_ret].
    apply obeys_bind; [apply get_edited_prompt_obeys|intros; apply obeys_ret]. }
  eapply (exits_last_bind_quiet setup_event);
    [done | apply resolve_role_obeys | intros role_class].
  destruct (tokenize a).
  - eapply (exits_last_quiet setup_event); [done|apply print_tokens_obeys].
  - apply complete_exits_last.
Qed.

(** C3: Exited is terminal. Whenever the REPL of an invocation reaches
    Exited, that is the last thing the invocation does: nothing is
    logged after it (in particular no completion call, no remote call
    and no session commit), and [main] ends with the exit of the
    process instead of going on to line 211. *)
Theorem repl_exited_is_terminal (a : Args) (env : Env) (st : Store)
    (pre post : list Event) :
  events_of (main a env st) = pre ++ EvReplExited :: post ->
  post = [] /\
  result_of (main a env st) = Err Exit /\
  existsb is_completion_call post = false.
Proof.
  rewrite main_eq.
  assert (Hnot : EvReplExited ∉ stdin_events a env).
  { unfold stdin_events.
    destruct (stdin_passed env && negb (truthy (repl a)));
      [by intros ?%list_elem_of_singleton | by intros ?%elem_of_nil]. }
  assert (Hstop : stdin_events a env = pre ++ EvReplExited :: post -> False).
  { intros Heq. apply Hnot. rewrite Heq. set_solver. }
  repeat case_match; unfold events_of, result_of; simpl;
    try (intros Heq; exfalso; exact (Hstop Heq)).
  intros Heq.
  destruct (app_eq_split_notin _ _ _ _ _ Heq Hnot) as (pre' & _ & Heq2).
  destruct (generate_exits_last a env _ st pre' post Heq2) as [-> Hres].
  done.
Qed.

Lemma repl_exited_is_terminal_witness :
  result_of (main (repl_args "work") (terminal ["hello"; ""]) empty_store)
    = Err Exit.
Proof.
  eapply (repl_exited_is_terminal (repl_args "work")
            (terminal ["hello"; ""]) empty_store
            [EvCheckGet false false false; EvReplStart "work";
             EvHandle (builtin_role (terminal ["hello"; ""]) DEFAULT)
               (Some "work");
             EvRemote _; EvPrint "ls -la"; EvSessionCommit "work";
             EvPrint "ls -la"] []).
  reflexivity.
Defined.

(** ** Entering the shell execution loop (line 233) *)

Lemma loop_entered_app evs1 evs2 :
  loop_entered (evs1 ++ evs2) = loop_entered evs1 || loop_entered evs2.
Proof. apply existsb_app. Qed.

Lemma loop_entered_quiet (P : Event -> bool) evs :
  (forall ev, P ev = true -> is_prompt ev = false) ->
  Forall (fun ev => P ev = true) evs -> loop_entered evs = false.
Proof.
  intros HP Hall. induction Hall as [|ev evs Hev _ IH]; [done|].
  simpl. by rewrite (HP _ Hev), IH.
Qed.

Lemma loop_entered_bind {A B} (P : Event -> bool) PE
    (m : M A) (k : A -> M B) st :
  (forall ev, P ev = true -> is_prompt ev = false) ->
  obeys (fun ev => P ev = true) PE m ->
  loop_entered (events_of (bind m k st)) =
    match m st with
    | (Ok x, st1, _) => loop_entered (events_of (k x st1))
    | (Err _, _, _) => false
    end.
Proof.
  intros HP Hm. destruct (Hm st) as [Hall _].
  apply (loop_entered_quiet P _ HP) in Hall.
  unfold bind, events_of in *.
  destruct (m st) as [[[x|e] st1] ev1]; simpl in *; [|done].
  destruct (k x st1) as [[r st2] ev2]; simpl.
  by rewrite loop_entered_app, Hall.
Qed.

Lemma setup_event_quiet ev : setup_event ev = true -> is_prompt ev = false.
Proof. by destruct ev. Qed.

Lemma handler_event_quiet ev : handler_event ev = true -> is_prompt ev = false.
Proof. by destruct ev. Qed.

Lemma repl_event_quiet ev : repl_event ev = true -> is_prompt ev = false.
Proof. by destruct ev. Qed.

(** The loop, once entered, asks at least once. *)
Lemma shell_loop_enters env a fc lines st :
  loop_entered (events_of (shell_loop env a fc lines st)) = true.
Proof.
  induction lines as [|line rest IH]; simpl; [done|].
  destruct (prompt_value _ line) as [option|]; [|done].
  unfold bind at 1, emit at 1.
  by destruct (_ st) as [[??]?].
Qed.

Lemma read_image_store a env st :
  store_of (read_image a env st) = st.
Proof.
  unfold read_image, bind, emit, ret, raise, store_of.
  destruct (truthy (image a)); [|done].
  destruct (negb (String.eqb (model a) vision_model)); [done|].
  destruct (_ || _); [done|]. simpl.
  by destruct (image_files env !! default "" (image a)).
Qed.

Lemma resolve_role_store a env st :
  store_of (resolve_role a env st) = st.
Proof.
  unfold resolve_role, SystemRole_get, check_get, bind, emit, ret, raise,
    store_of.
  destruct (truthy (role a)); simpl.
  - by destruct (role_storage env !! default "" (role a)).
  - destruct (1 <? sum3 (shell a) (describe_shell a) (code a))%Z,
      (shell a), (describe_shell a), (code a); done.
Qed.

Lemma generate_enters a env p st :
  loop_entered (events_of (generate a env p st)) = true <->
    tokenize a = false /\ truthy (repl a) = false /\
    shell a && negb (stdin_passed env) = true /\
    exists image_url role_class full_completion,
      result_of (read_image a env st) = Ok image_url /\
      result_of (resolve_role a env st) = Ok role_class /\
      result_of
        ((if truthy (chat a) then
            ChatHandler_handle env (default "" (chat a)) role_class
              (if editor a then Some (edited_prompt env) else p)
              image_url (model a) (temperature a)
              (top_probability a) (cache a) (max_tokens_of a)
          else
            DefaultHandler_handle env role_class
              (if editor a then Some (edited_prompt env) else p)
              image_url (model a) (temperature a) (top_probability a)
              (cache a) (max_tokens_of a)) st) = Ok full_completion.
Proof.
  unfold generate.
  rewrite (loop_entered_bind setup_event _ _ _ _ setup_event_quiet
             (read_image_obeys a env)).
  pose proof (read_image_store a env st) as Hst1.
  unfold store_of, result_of in *.
  destruct (read_image a env st) as [[[img|e] st1] ev1]; simpl in *;
    subst st1; [|split; [done | by intros (_&_&_&?&?&?&?&_)]].
  rewrite (loop_entered_bind setup_event (fun e => setup_error e = true)
             _ _ _ setup_event_quiet); last first.
  { destruct (editor a); [|apply obeys_ret].
    apply obeys_bind; [apply get_edited_prompt_obeys|intros; apply obeys_ret]. }
  set (p' := if editor a then Some (edited_prompt env) else p).
  assert (Hed : (if editor a
                 then s <- get_edited_prompt env;; ret (Some s)
                 else ret p) st
                = (Ok p', st, if editor a then [EvEditor] else [])).
  { unfold p'. by destruct (editor a). }
  rewrite Hed. clear Hed.
  rewrite (loop_entered_bind setup_event _ _ _ _ setup_event_quiet
             (resolve_role_obeys a env)).
  pose proof (resolve_role_store a env st) as Hst2.
  unfold store_of in Hst2.
  destruct (resolve_role a env st) as [[[rc|e] st2] ev2]; simpl in *;
    subst st2; [|split; [done | by intros (_&_&_&?&?&?&_&?&_)]].
  destruct (tokenize a).
  { destruct (print_tokens_obeys a env p' st) as [Hall _].
    rewrite (loop_entered_quiet setup_event _ setup_event_quiet Hall).
    split; [done | by intros (?&_)]. }
  unfold complete.
  rewrite (loop_entered_bind repl_event (fun e => repl_error e = true)
             _ _ _ repl_event_quiet); last first.
  { destruct (truthy (repl a)); [|apply obeys_ret].
    unfold ReplHandler_handle.
    apply obeys_bind; [by apply obeys_emit|intros _; apply repl_loop_obeys]. }
  destruct (truthy (repl a)).
  { destruct (ReplHandler_handle_never_returns env (default "" (repl a)) rc p'
                (model a) (temperature a) (top_probability a) (cache a) st)
      as [e He].
    unfold result_of in He.
    destruct (ReplHandler_handle _ _ _ _ _ _ _ _ _) as [[[?|?] ?] ?];
      simplify_eq/=. split; [done | by intros (_&?&_)]. }
  cbn [ret].
  rewrite (loop_entered_bind handler_event (fun e => handler_error e = true)
             _ _ _ handler_event_quiet); last first.
  { destruct (truthy (chat a)); apply handle_obeys. }
  fold (max_tokens_of a).
  match goal with
  | |- context [match ?h st with _ => _ end] =>
      destruct (h st) as [[[fc|e] st3] ev3] eqn:Hh
  end.
  - unfold execute_loop.
    destruct (shell a && negb (stdin_passed env)).
    + rewrite shell_loop_enters. split; [intros _|done].
      split_and!; [done..|]. exists img, rc, fc. by rewrite Hh.
    + split; [done|]. by intros (_ & _ & ? & _).
  - split; [done|].
    intros (_ & _ & _ & img' & rc' & fc' & [= <-] & [= <-] & Hfc).
    rewrite Hh in Hfc. done.
Qed.

(** Corrected form of C4: the shell execution loop is entered exactly
    when --shell is set, standard input is a terminal, and [main] gets
    as far as line 233. Without --shell, or with piped input, it is
    never entered. *)
Theorem loop_entered_iff (a : Args) (env : Env) (st : Store) :
  (loop_entered (events_of (main a env st)) = true <->
     shell a = true /\ stdin_isatty env = true /\ reaches_loop a env st) /\
  (shell a = false \/ stdin_isatty env = false ->
     loop_entered (events_of (main a env st)) = false).
Proof.
  assert (Hiff : loop_entered (events_of (main a env st)) = true <->
     shell a = true /\ stdin_isatty env = true /\ reaches_loop a env st).
  { rewrite main_eq. unfold reaches_loop.
    assert (Hquiet : loop_entered (stdin_events a env) = false).
    { unfold stdin_events.
      by destruct (stdin_passed env && negb (truthy (repl a))). }
    assert (Hstop : forall (r : Result unit),
      loop_entered (events_of (r, st, stdin_events a env)) = true ->
      False).
    { intros r. unfold events_of. simpl. by rewrite Hquiet. }
    destruct (prompt_missing a env);
      [split; [by intros ?%Hstop | by intros (_ & _ & ? & _)]|].
    destruct (two_or_more _ _ _);
      [split; [by intros ?%Hstop | by intros (_ & _ & _ & ? & _)]|].
    destruct (truthy (chat a) && truthy (repl a));
      [split; [by intros ?%Hstop | by intros (_ & _ & _ & _ & ? & _)]|].
    destruct (editor a && stdin_passed env);
      [split; [by intros ?%Hstop | by intros (_ & _ & _ & _ & _ & ? & _)]|].
    unfold events_of at 1. cbn [snd].
    rewrite loop_entered_app, Hquiet, orb_false_l, generate_enters.
    unfold final_prompt, stdin_passed.
    rewrite andb_true_iff, negb_true_iff, negb_false_iff.
    split.
    - intros (Htok & Hrepl & [Hsh Htty] & Hex). by split_and!.
    - intros (Hsh & Htty & _ & _ & _ & _ & Htok & Hrepl & Hex).
      by split_and!. }
  split; [exact Hiff|].
  intros Hor. apply not_true_is_false. rewrite Hiff.
  intros (Hs & Ht & _). destruct Hor; congruence.
Qed.

(** C4 as stated fails: [sgpt --shell --tokenize "list files"] at a
    terminal has the shell flag and interactive input, yet [main]
    returns at line 198 and the loop is not entered. *)
Lemma shell_tokenize_never_prompts :
  shell (shell_tokenize_args (Some "list files")) = true /\
  stdin_isatty (terminal ["e"]) = true /\
  main (shell_tokenize_args (Some "list files")) (terminal ["e"])
    empty_store =
    (Ok tt, empty_store,
     [EvCheckGet true false false;
      EvPrint "Estimated Number of Tokens: [bold red]10[/bold red] :boom:"])
  /\
  loop_entered
    (events_of (main (shell_tokenize_args (Some "list files"))
                  (terminal ["e"]) empty_store)) = false.
Proof. by vm_compute. Qed.

(** ** The shell execution loop (lines 233 to 254) *)

Lemma prompt_value_choice dflt line option :
  prompt_value dflt line = Some option ->
  option = "e" \/ option = "d" \/ option = "a" \/ option = "y".
Proof.
  unfold prompt_value, Choice_convert. intros Hfind.
  apply find_some in Hfind as [Hin _]. unfold choices in Hin.
  destruct Hin as [<-|[<-|[<-|[<-|[]]]]]; auto.
Qed.

(** The loop is [typer.prompt] followed by the three branches. *)
Lemma shell_loop_typer_prompt env a fc lines st :
  shell_loop env a fc lines st =
    match typer_prompt (prompt_default env) lines with
    | None => (Err Abort, st, [EvPrompt (prompt_default env) None])
    | Some (option, rest) =>
        (emit (EvPrompt (prompt_default env) (Some option));;;
         if is_execute option then run_command env fc
         else if String.eqb option "d" then
           r <- get_role env DESCRIBE_SHELL;;
           DefaultHandler_handle env r (Some fc) None
             (model a) (temperature a) (top_probability a) (cache a)
             None;;;
           shell_loop env a fc rest
         else ret tt) st
    end.
Proof.
  induction lines as [|line rest IH]; simpl; [done|].
  by destruct (prompt_value _ line).
Qed.

(** A handler call without a chat id leaves every session as it was,
    whatever its outcome. *)
Lemma handle_None_sessions env r p image_url mdl t tp caching mt st :
  durable (store_of (handle env r None p image_url mdl t tp caching mt st))
    = durable st /\
  temp (store_of (handle env r None p image_url mdl t tp caching mt st))
    = temp st.
Proof.
  unfold handle, get_or_compute, remote_call, bind, emit, ret, raise,
    get_store, put_store, store_of.
  simpl. destruct caching; simpl.
  - destruct (cache_lookup _ _); simpl; [done|].
    by destruct (remote env _).
  - by destruct (remote env _).
Qed.

(** What such a call logs: the call itself, then at most the remote
    call and its echo; no session is committed. *)
Lemma handle_None_events env r p image_url mdl t tp caching mt st :
  exists evs,
    events_of (handle env r None p image_url mdl t tp caching mt st)
      = EvHandle r None :: evs /\
    Forall (fun ev => match ev with
                      | EvRemote _ | EvPrint _ => True
                      | _ => False
                      end) evs.
Proof.
  unfold handle, get_or_compute, remote_call, bind, emit, ret, raise,
    get_store, put_store, events_of.
  simpl. destruct caching; simpl.
  - destruct (cache_lookup _ _); simpl; [by eexists|].
    destruct (remote env _); simpl; eexists; split; try done;
      by repeat constructor.
  - destruct (remote env _); simpl; eexists; split; try done;
      by repeat constructor.
Qed.

(** One turn of the loop on the next console line. *)
Lemma shell_loop_cons env a fc line rest st :
  shell_loop env a fc (line :: rest) st =
    match prompt_value (prompt_default env) line with
    | None => shell_loop env a fc rest st
    | Some option =>
        if is_execute option then
          (Ok tt, st, [EvPrompt (prompt_default env) (Some option);
                       EvRunCommand fc (child_status env fc)])
        else if String.eqb option "d" then
          match DefaultHandler_handle env (builtin_role env DESCRIBE_SHELL)
                  (Some fc) None (model a) (temperature a)
                  (top_probability a) (cache a) None st with
          | (Ok _, st1, evs) =>
              (result_of (shell_loop env a fc rest st1),
               store_of (shell_loop env a fc rest st1),
               EvPrompt (prompt_default env) (Some option)
               :: EvGetRole DESCRIBE_SHELL
               :: evs ++ events_of (shell_loop env a fc rest st1))
          | (Err e, st1, evs) =>
              (Err e, st1,
               EvPrompt (prompt_default env) (Some option)
               :: EvGetRole DESCRIBE_SHELL :: evs)
          end
        else (Ok tt, st, [EvPrompt (prompt_default env) (Some option)])
    end.
Proof.
  simpl. destruct (prompt_value _ line) as [option|]; [|done].
  unfold bind at 1, emit at 1.
  destruct (is_execute option); [done|].
  destruct (String.eqb option "d"); [|done].
  unfold bind at 1, get_role at 1, bind at 1, emit at 1, ret at 1. simpl.
  unfold bind at 1.
  destruct (DefaultHandler_handle _ _ _ _ _ _ _ _ _ _) as [[[x|e] st1] evs];
    [|done].
  unfold result_of, store_of, events_of.
  by destruct (shell_loop env a fc rest st1) as [[??]?].
Qed.

(** The loop never touches a chat session. *)
Lemma shell_loop_sessions env a fc lines st :
  durable (store_of (shell_loop env a fc lines st)) = durable st /\
  temp (store_of (shell_loop env a fc lines st)) = temp st.
Proof.
  revert st. induction lines as [|line rest IH]; intros st; [done|].
  rewrite shell_loop_cons.
  destruct (prompt_value _ line) as [option|]; [|apply IH].
  destruct (is_execute option); [done|].
  destruct (String.eqb option "d"); [|done].
  pose proof (handle_None_sessions env (builtin_role env DESCRIBE_SHELL)
                (Some fc) None (model a) (temperature a)
                (top_probability a) (cache a) None st) as [Hd Ht].
  unfold DefaultHandler_handle, store_of in *.
  destruct (handle _ _ _ _ _ _ _ _ _ _ _) as [[[x|e] st1] evs];
    simpl in *; [|done].
  destruct (IH st1) as [Hd' Ht']. unfold store_of in *. simpl.
  split; congruence.
Qed.

(** Every turn starts by asking. *)
Lemma shell_loop_asks_first env a fc lines st :
  exists answer evs,
    events_of (shell_loop env a fc lines st) =
      EvPrompt (prompt_default env) answer :: evs.
Proof.
  revert st. induction lines as [|line rest IH]; intros st;
    [by eexists _, _|].
  rewrite shell_loop_cons.
  destruct (prompt_value _ line) as [option|]; [|apply IH].
  destruct (is_execute option); [by eexists _, _|].
  destruct (String.eqb option "d"); [|by eexists _, _].
  destruct (DefaultHandler_handle _ _ _ _ _ _ _ _ _ _) as [[[x|e] st1] evs];
    by eexists _, _.
Qed.

Lemma handler_event_not_prompt evs d o :
  Forall (fun ev => handler_event ev = true) evs ->
  EvPrompt d o ∉ evs.
Proof.
  intros Hall Hin. rewrite Forall_forall in Hall. by apply Hall in Hin.
Qed.

Lemma handler_event_no_run evs :
  Forall (fun ev => handler_event ev = true) evs ->
  existsb is_run_command evs = false.
Proof.
  induction 1 as [|ev evs Hev _ IH]; [done|].
  simpl. rewrite IH. by destruct ev.
Qed.

(** A choice other than Describe ends the loop: nothing was run before
    it, and after it comes the one command run (Execute) or nothing
    (Abort). *)
Lemma shell_loop_last_choice env a fc lines st pre post d o :
  events_of (shell_loop env a fc lines st) = pre ++ EvPrompt d (Some o) :: post ->
  is_execute o || negb (String.eqb o "d") = true ->
  post = (if is_execute o then [EvRunCommand fc (child_status env fc)]
          else []) /\
  result_of (shell_loop env a fc lines st) = Ok tt /\
  existsb is_run_command pre = false.
Proof.
  revert st pre. induction lines as [|line rest IH]; intros st pre Hev Ho.
  { destruct pre as [|? [|??]]; simplify_eq/=. }
  rewrite shell_loop_cons in *.
  destruct (prompt_value _ line) as [option|]; [|by apply IH].
  destruct (is_execute option) eqn:Hexec.
  { destruct pre as [|? [|? [|??]]]; simplify_eq/=. by rewrite Hexec. }
  destruct (String.eqb option "d") eqn:Hdesc; last first.
  { destruct pre as [|? [|??]]; simplify_eq/=. by rewrite Hexec. }
  destruct (handle_obeys env (builtin_role env DESCRIBE_SHELL) None (Some fc)
              None (model a) (temperature a) (top_probability a) (cache a)
              None st) as [Hall _].
  unfold DefaultHandler_handle, events_of, result_of in *.
  destruct (handle _ _ _ _ _ _ _ _ _ _ _) as [[[x|e] st1] evs]; simpl in *.
  - destruct pre as [|p0 [|p1 pre]]; simpl in Hev.
    { injection Hev as _ <- _. by rewrite Hexec, Hdesc in Ho. }
    { discriminate Hev. }
    injection Hev as <- <- Hev.
    pose proof (handler_event_not_prompt _ d (Some o) Hall) as Hnotin.
    destruct (app_eq_split_notin _ _ _ _ _ Hev Hnotin) as (pre' & -> & Hrec).
    destruct (IH st1 pre' Hrec Ho) as (-> & Hres & Hrun).
    split_and!; [done..|]. simpl.
    by rewrite existsb_app, Hrun, (handler_event_no_run _ Hall).
  - destruct pre as [|p0 [|p1 pre]]; simpl in Hev.
    { injection Hev as _ <- _. by rewrite Hexec, Hdesc in Ho. }
    { discriminate Hev. }
    injection Hev as <- <- Hev.
    exfalso. apply (handler_event_not_prompt _ d (Some o) Hall).
    rewrite Hev. apply elem_of_app. right. by left.
Qed.

(** The lines [typer.prompt] asks again about change nothing. *)
Lemma shell_loop_skip env a fc lines rest option st :
  typer_prompt (prompt_default env) lines = Some (option, rest) ->
  exists line,
    shell_loop env a fc lines st = shell_loop env a fc (line :: rest) st /\
    prompt_value (prompt_default env) line = Some option.
Proof.
  induction lines as [|l tl IH]; [done|]. simpl.
  destruct (prompt_value _ l) as [o'|] eqn:Hl.
  - intros [= -> ->]. exists l. by rewrite Hl.
  - intros Htl. destruct (IH Htl) as (line & Heq & Hline).
    exists line. split; [|done]. rewrite Heq. done.
Qed.

(** C5: a turn in which the user chooses Describe makes one handler
    call with the built-in describe-shell role and no chat id; that
    call logs no session commit and leaves every chat session as it
    was, and so does the loop as a whole. When the call returns the
    loop goes on from the remaining console input, and the next thing
    it does is ask again; when it raises, the exception ends the
    loop. *)
Theorem describe_is_one_shot (env : Env) (a : Args) (fc : string)
    (lines rest : list string) (st : Store) :
  typer_prompt (prompt_default env) lines = Some ("d", rest) ->
  (durable (store_of (shell_loop env a fc lines st)) = durable st /\
   temp (store_of (shell_loop env a fc lines st)) = temp st) /\
  kind (builtin_role env DESCRIBE_SHELL) = default_describe_shell /\
  exists r st1 evs,
    handle env (builtin_role env DESCRIBE_SHELL) None (Some fc) None
      (model a) (temperature a) (top_probability a) (cache a) None st
      = (r, st1, EvHandle (builtin_role env DESCRIBE_SHELL) None :: evs) /\
    Forall (fun ev => match ev with
                      | EvRemote _ | EvPrint _ => True
                      | _ => False
                      end) evs /\
    durable st1 = durable st /\ temp st1 = temp st /\
    match r with
    | Ok _ =>
        shell_loop env a fc lines st =
          (result_of (shell_loop env a fc rest st1),
           store_of (shell_loop env a fc rest st1),
           EvPrompt (prompt_default env) (Some "d")
           :: EvGetRole DESCRIBE_SHELL
           :: EvHandle (builtin_role env DESCRIBE_SHELL) None
           :: evs ++ events_of (shell_loop env a fc rest st1)) /\
        exists answer evs',
          events_of (shell_loop env a fc rest st1) =
            EvPrompt (prompt_default env) answer :: evs'
    | Err e =>
        shell_loop env a fc lines st =
          (Err e, st1,
           EvPrompt (prompt_default env) (Some "d")
           :: EvGetRole DESCRIBE_SHELL
           :: EvHandle (builtin_role env DESCRIBE_SHELL) None :: evs)
    end.
Proof.
  intros Hprompt. split; [apply shell_loop_sessions|]. split; [done|].
  destruct (handle_None_events env (builtin_role env DESCRIBE_SHELL)
              (Some fc) None (model a) (temperature a) (top_probability a)
              (cache a) None st) as (evs & Hevs & Hall).
  destruct (handle_None_sessions env (builtin_role env DESCRIBE_SHELL)
              (Some fc) None (model a) (temperature a) (top_probability a)
              (cache a) None st) as [Hd Ht].
  destruct (shell_loop_skip env a fc lines rest "d" st Hprompt)
    as (line & -> & Hline).
  rewrite shell_loop_cons, Hline. cbn [is_execute String.eqb Ascii.eqb
    Bool.eqb orb]. unfold DefaultHandler_handle.
  unfold events_of, store_of in Hevs, Hd, Ht.
  destruct (handle _ _ _ _ _ _ _ _ _ _ _) as [[r st1] evs0].
  simpl in Hevs, Hd, Ht. subst evs0.
  exists r, st1, evs. split_and!; [done..|].
  destruct r as [x|e]; [|done].
  split; [done|apply shell_loop_asks_first].
Qed.

Lemma describe_is_one_shot_witness :
  durable (store_of (shell_loop (terminal ["d"; "a"])
                       (shell_args (Some "list files")) "ls -la"
                       ["d"; "a"] empty_store)) = durable empty_store /\
  temp (store_of (shell_loop (terminal ["d"; "a"])
                    (shell_args (Some "list files")) "ls -la"
                    ["d"; "a"] empty_store)) = temp empty_store.
Proof.
  apply (describe_is_one_shot (terminal ["d"; "a"])
           (shell_args (Some "list files")) "ls -la" ["d"; "a"] ["a"]
           empty_store).
  reflexivity.
Defined.



(** C7: a turn in which the user chooses Abort ends the loop at once:
    the store is what it was and nothing but the question is logged.
    In a run that ends this way nothing follows the choice, no command
    was run at any point, and no chat session has changed. *)
Theorem abort_ends_loop (env : Env) (a : Args) (fc : string)
    (lines : list string) (st : Store) :
  (forall rest,
     typer_prompt (prompt_default env) lines = Some ("a", rest) ->
     shell_loop env a fc lines st =
       (Ok tt, st, [EvPrompt (prompt_default env) (Some "a")])) /\
  (forall pre post d,
     events_of (shell_loop env a fc lines st)
       = pre ++ EvPrompt d (Some "a") :: post ->
     post = [] /\
     result_of (shell_loop env a fc lines st) = Ok tt /\
     existsb is_run_command (events_of (shell_loop env a fc lines st))
       = false /\
     existsb is_completion_call post = false /\
     durable (store_of (shell_loop env a fc lines st)) = durable st /\
     temp (store_of (shell_loop env a fc lines st)) = temp st).
Proof.
  split.
  - intros rest Hprompt. by rewrite shell_loop_typer_prompt, Hprompt.
  - intros pre post d Hev.
    destruct (shell_loop_last_choice env a fc lines st pre post d "a" Hev)
      as (Hpost & Hres & Hpre); [done|].
    simpl in Hpost. subst post.
    destruct (shell_loop_sessions env a fc lines st) as [Hd Ht].
    split_and!; [done..| |done|done|done].
    rewrite Hev, existsb_app, Hpre. done.
Qed.

Lemma abort_ends_loop_witness :
  shell_loop (terminal ["a"]) (shell_args (Some "list files")) "ls -la"
    ["a"] empty_store = (Ok tt, empty_store, [EvPrompt "a" (Some "a")]).
Proof.
  apply (abort_ends_loop (terminal ["a"]) (shell_args (Some "list files"))
           "ls -la" ["a"] empty_store) with (rest := []).
  reflexivity.
Defined.

(** C8: the default of the prompt follows the configuration. It is
    "e" (Execute) exactly when the configured DEFAULT_EXECUTE_SHELL_CMD
    is the string "true", and "a" (Abort) in every other case, also
    when the key is absent. The loop always begins by asking, every
    question it asks carries that default, and an empty answer takes
    it: the command is then run when the setting is "true", and the
    loop ends without running it otherwise. *)
Theorem prompt_default_per_configuration (env : Env) :
  (prompt_default env = "e" <->
     cfg_get env "DEFAULT_EXECUTE_SHELL_CMD" = Some "true") /\
  (prompt_default env = "a" <->
     cfg_get env "DEFAULT_EXECUTE_SHELL_CMD" <> Some "true") /\
  (forall rest,
     typer_prompt (prompt_default env) ("" :: rest)
       = Some (prompt_default env, rest)) /\
  (forall a fc lines st,
     Forall (fun ev => match ev with
                       | EvPrompt d _ => d = prompt_default env
                       | _ => True
                       end)
       (events_of (shell_loop env a fc lines st))) /\
  (forall a fc lines st,
     exists answer evs,
       events_of (shell_loop env a fc lines st)
         = EvPrompt (prompt_default env) answer :: evs) /\
  (forall a fc rest st,
     (cfg_get env "DEFAULT_EXECUTE_SHELL_CMD" = Some "true" ->
      shell_loop env a fc ("" :: rest) st =
        (Ok tt, st, [EvPrompt "e" (Some "e");
                     EvRunCommand fc (child_status env fc)])) /\
     (cfg_get env "DEFAULT_EXECUTE_SHELL_CMD" <> Some "true" ->
      shell_loop env a fc ("" :: rest) st =
        (Ok tt, st, [EvPrompt "a" (Some "a")]))) /\
  (forall a fc lines st,
     shell_loop env a fc lines st =
       match typer_prompt (prompt_default env) lines with
       | None => (Err Abort, st, [EvPrompt (prompt_default env) None])
       | Some (option, rest) =>
           (emit (EvPrompt (prompt_default env) (Some option));;;
            if is_execute option then run_command env fc
            else if String.eqb option "d" then
              r <- get_role env DESCRIBE_SHELL;;
              DefaultHandler_handle env r (Some fc) None
                (model a) (temperature a) (top_probability a) (cache a)
                None;;;
              shell_loop env a fc rest
            else ret tt) st
       end).
Proof.
  split_and!.
  - unfold prompt_default. case_bool_decide; split; congruence.
  - unfold prompt_default. case_bool_decide; split; congruence.
  - intros rest. unfold prompt_default. by case_bool_decide.
  - intros a fc lines st. revert st.
    induction lines as [|line rest IH]; intros st.
    { by repeat constructor. }
    rewrite shell_loop_cons.
    destruct (prompt_value _ line) as [option|]; [|apply IH].
    destruct (is_execute option); [by repeat constructor|].
    destruct (String.eqb option "d"); [|by repeat constructor].
    destruct (handle_obeys env (builtin_role env DESCRIBE_SHELL) None
                (Some fc) None (model a) (temperature a)
                (top_probability a) (cache a) None st) as [Hall _].
    unfold DefaultHandler_handle, events_of in *.
    destruct (handle _ _ _ _ _ _ _ _ _ _ _) as [[[x|e] st1] evs];
      simpl in *; repeat (constructor; [done|]).
    + apply Forall_app_2; [|apply IH].
      eapply Forall_impl; [exact Hall|]. by intros [].
    + eapply Forall_impl; [exact Hall|]. by intros [].
  - intros a fc lines st. apply shell_loop_asks_first.
  - intros a fc rest st. rewrite shell_loop_cons. unfold prompt_default.
    split; intros Hcfg; by case_bool_decide.
  - intros a fc lines st. apply shell_loop_typer_prompt.
Qed.

(** ** The body of [main], stage by stage *)

Lemma read_image_triple a env st :
  read_image a env st =
    (result_of (read_image a env st), st, events_of (read_image a env st)).
Proof.
  pose proof (read_image_store a env st) as H.
  unfold result_of, store_of, events_of in *.
  destruct (read_image a env st) as [[??]?]. simpl in *. by subst.
Qed.

Lemma resolve_role_triple a env st :
  resolve_role a env st =
    (result_of (resolve_role a env st), st,
     events_of (resolve_role a env st)).
Proof.
  pose proof (resolve_role_store a env st) as H.
  unfold result_of, store_of, events_of in *.
  destruct (resolve_role a env st) as [[??]?]. simpl in *. by subst.
Qed.

Lemma print_tokens_store a env p st :
  store_of (print_tokens a env p st) = st.
Proof.
  unfold print_tokens, emit, raise, store_of.
  destruct (token_count env (model a)); [|done].
  by destruct p.
Qed.

(** Lines 162 to 198, then the rest. *)
Lemma generate_eq a env p st :
  generate a env p st =
    match result_of (read_image a env st) with
    | Err e => (Err e, st, events_of (read_image a env st))
    | Ok image_url =>
        match result_of (resolve_role a env st) with
        | Err e =>
            (Err e, st,
             events_of (read_image a env st)
             ++ (if editor a then [EvEditor] else [])
             ++ events_of (resolve_role a env st))
        | Ok role_class =>
            if tokenize a then
              (result_of (print_tokens a env
                            (if editor a then Some (edited_prompt env)
                             else p) st),
               st,
               events_of (read_image a env st)
               ++ (if editor a then [EvEditor] else [])
               ++ events_of (resolve_role a env st)
               ++ events_of (print_tokens a env
                               (if editor a then Some (edited_prompt env)
                                else p) st))
            else
              (result_of (complete a env
                            (if editor a then Some (edited_prompt env)
                             else p)
                            image_url (max_tokens_of a) role_class st),
               store_of (complete a env
                           (if editor a then Some (edited_prompt env)
                            else p)
                           image_url (max_tokens_of a) role_class st),
               events_of (read_image a env st)
               ++ (if editor a then [EvEditor] else [])
               ++ events_of (resolve_role a env st)
               ++ events_of (complete a env
                               (if editor a then Some (edited_prompt env)
                                else p)
                               image_url (max_tokens_of a) role_class st))
        end
    end.
Proof.
  unfold generate. unfold bind at 1.
  rewrite (read_image_triple a env st).
  destruct (result_of (read_image a env st)) as [image_url|e]; [|done].
  cbn [result_of events_of fst snd].
  unfold bind at 1.
  assert (Hed : (if editor a
                 then s <- get_edited_prompt env;; ret (Some s)
                 else ret p) st
                = (Ok (if editor a then Some (edited_prompt env) else p),
                   st, if editor a then [EvEditor] else [])).
  { by destruct (editor a). }
  rewrite Hed. clear Hed.
  unfold bind at 1. rewrite (resolve_role_triple a env st).
  destruct (result_of (resolve_role a env st)) as [role_class|e];
    cbn [result_of events_of fst snd]; [|done].
  fold (max_tokens_of a).
  destruct (tokenize a).
  - pose proof (print_tokens_store a env
                  (if editor a then Some (edited_prompt env) else p) st) as Hs.
    unfold store_of, result_of, events_of in *.
    destruct (print_tokens _ _ _ _) as [[??]?]. simpl in *. by subst.
  - unfold store_of, result_of, events_of.
    by destruct (complete _ _ _ _ _ _ _) as [[??]?].
Qed.

(** Lines 200 to 254: the REPL, or the completion and then the loop. *)
Lemma complete_eq a env p image_url max_tokens role_class st :
  complete a env p image_url max_tokens role_class st =
    if truthy (repl a) then
      ReplHandler_handle env (default "" (repl a)) role_class p
        (model a) (temperature a) (top_probability a) (cache a) st
    else
      match handle env role_class
              (if truthy (chat a) then Some (default "" (chat a)) else None)
              p image_url (model a) (temperature a) (top_probability a)
              (cache a) max_tokens st with
      | (Err e, st1, evs) => (Err e, st1, evs)
      | (Ok full_completion, st1, evs) =>
          (result_of (execute_loop a env full_completion st1),
           store_of (execute_loop a env full_completion st1),
           evs ++ events_of (execute_loop a env full_completion st1))
      end.
Proof.
  unfold complete. destruct (truthy (repl a)).
  - destruct (ReplHandler_handle_never_returns env (default "" (repl a))
                role_class p (model a) (temperature a) (top_probability a)
                (cache a) st) as [e He].
    unfold result_of in He. unfold bind at 1.
    by destruct (ReplHandler_handle _ _ _ _ _ _ _ _ _) as [[[?|?] ?] ?].
  - unfold bind at 1, ret at 1. unfold bind at 1.
    unfold ChatHandler_handle, DefaultHandler_handle. cbn [app].
    destruct (truthy (chat a));
      destruct (handle _ _ _ _ _ _ _ _ _ _ _) as [[[fc|e] st1] evs];
      try done;
      unfold result_of, store_of, events_of;
      by destruct (execute_loop a env fc st1) as [[??]?].
Qed.

(** ** Further properties of [main] *)

(** X1: --editor together with piped input is refused (lines 159 and
    160): [main] ends in a BadArgumentUsage before the editor is
    opened; the message is the one of the first check that fails. *)
Theorem editor_with_piped_stdin_rejected (a : Args) (env : Env) (st : Store) :
  editor a = true -> stdin_passed env = true ->
  main a env st =
    (Err (BadArgumentUsage
            (if two_or_more (shell a) (describe_shell a) (code a)
             then flags_message
             else if truthy (chat a) && truthy (repl a)
                  then chat_repl_message
                  else editor_stdin_message)),
     st, stdin_events a env) /\
  EvEditor ∉ events_of (main a env st).
Proof.
  intros He Hin.
  assert (Hmain : main a env st =
    (Err (BadArgumentUsage
            (if two_or_more (shell a) (describe_shell a) (code a)
             then flags_message
             else if truthy (chat a) && truthy (repl a)
                  then chat_repl_message
                  else editor_stdin_message)),
     st, stdin_events a env)).
  { rewrite main_eq. unfold prompt_missing. rewrite He, Hin. simpl.
    by repeat case_match. }
  split; [done|]. rewrite Hmain. unfold events_of, stdin_events. simpl.
  destruct (stdin_passed env && negb (truthy (repl a)));
    [by intros ?%list_elem_of_singleton | by intros ?%elem_of_nil].
Qed.

Lemma editor_with_piped_stdin_rejected_witness :
  main (editor_args None) (piped "ls -la") empty_store =
    (Err (BadArgumentUsage editor_stdin_message), empty_store,
     [EvStdinRead]).
Proof.
  apply (editor_with_piped_stdin_rejected (editor_args None)
           (piped "ls -la") empty_store); reflexivity.
Defined.

(** X2: an --image with any model but gpt-4-vision-preview is refused
    (lines 163 to 166): once the checks on the options have passed,
    [main] ends in a BadArgumentUsage without opening the file, looking
    up a role or calling a handler. *)
Theorem image_requires_vision_model (a : Args) (env : Env) (st : Store) :
  prompt_missing a env = false ->
  two_or_more (shell a) (describe_shell a) (code a) = false ->
  truthy (chat a) && truthy (repl a) = false ->
  editor a && stdin_passed env = false ->
  truthy (image a) = true ->
  model a <> vision_model ->
  main a env st =
    (Err (BadArgumentUsage image_model_message), st, stdin_events a env).
Proof.
  intros H1 H2 H3 H4 Himg Hmodel.
  rewrite main_eq, H1, H2, H3, H4, generate_eq.
  assert (Hread : forall st', read_image a env st' =
            (Err (BadArgumentUsage image_model_message), st', [])).
  { intros st'. unfold read_image. rewrite Himg.
    destruct (String.eqb_spec (model a) vision_model); done. }
  rewrite Hread. unfold result_of, events_of. simpl.
  by rewrite app_nil_r.
Qed.

Lemma image_requires_vision_model_witness :
  main (image_args "cat.png" "gpt-4" (Some "what is this"))
    (terminal []) empty_store =
    (Err (BadArgumentUsage image_model_message), empty_store, []).
Proof.
  apply (image_requires_vision_model
           (image_args "cat.png" "gpt-4" (Some "what is this"))
           (terminal []) empty_store); try reflexivity.
  discriminate.
Defined.

(** [String.prefix] and [str_in] are Python's [startswith] and [in]. *)
Lemma append_cons (c : ascii) (s t : string) :
  String c s +:+ t = String c (s +:+ t).
Proof. reflexivity. Qed.

Lemma append_empty (t : string) : "" +:+ t = t.
Proof. reflexivity. Qed.

Lemma prefix_app (n h : string) :
  String.prefix n h = true <-> exists post, h = n +:+ post.
Proof.
  revert h. induction n as [|c n IH]; intros h.
  - split; [by exists h|intros _; by destruct h].
  - destruct h as [|c' h]; simpl.
    + split; [discriminate|]. intros [post Hpost].
      rewrite append_cons in Hpost. discriminate Hpost.
    + destruct (ascii_dec c c') as [->|Hne].
      * rewrite IH. split; intros [post Hpost]; exists post.
        -- by rewrite append_cons, Hpost.
        -- rewrite append_cons in Hpost. congruence.
      * split; [discriminate|]. intros [post Hpost].
        rewrite append_cons in Hpost. congruence.
Qed.

Lemma str_in_spec (n h : string) :
  str_in n h = true <-> exists pre post, h = pre +:+ n +:+ post.
Proof.
  induction h as [|c h IH]; cbn [str_in].
  - rewrite orb_false_r, prefix_app. split.
    + intros [post Hpost]. by exists "", post.
    + intros (pre & post & Heq). destruct pre as [|c' pre].
      * by exists post.
      * rewrite append_cons in Heq. discriminate Heq.
  - rewrite orb_true_iff, prefix_app, IH. split.
    + intros [[post Hpost]|(pre & post & ->)].
      * by exists "", post.
      * by exists (String c pre), post.
    + intros (pre & post & Heq). destruct pre as [|c' pre].
      * left. by exists post.
      * right. rewrite append_cons in Heq. injection Heq as -> ->.
        by exists pre, post.
Qed.

(** X3: what becomes of the --image argument with the vision model
    (lines 168 to 175). An argument with "https://" or "http://"
    anywhere in it is handed on as it is and no file is opened. Any
    other argument is opened as a file: the reference handed on is a
    JPEG data URL with the encoded contents, and a file that cannot be
    opened raises OSError. The store is left alone. *)
Theorem image_reference (a : Args) (env : Env) (st : Store) (img : string) :
  image a = Some img -> img <> "" -> model a = vision_model ->
  ((exists pre post, img = pre +:+ "https://" +:+ post) \/
   (exists pre post, img = pre +:+ "http://" +:+ post) ->
     read_image a env st = (Ok (Some img), st, [])) /\
  (~ (exists pre post, img = pre +:+ "https://" +:+ post) ->
   ~ (exists pre post, img = pre +:+ "http://" +:+ post) ->
     read_image a env st =
       (match image_files env !! img with
        | Some b64 => Ok (Some ("data:image/jpeg;base64," +:+ b64))
        | None => Err OSError
        end, st, [EvOpenFile img])).
Proof.
  intros Himg Hne Hmodel. unfold read_image.
  assert (Htruthy : truthy (image a) = true).
  { rewrite Himg. simpl. by destruct (String.eqb_spec img ""). }
  rewrite Htruthy, Himg, Hmodel, String.eqb_refl. simpl.
  split.
  - intros Hurl.
    assert (Hin : str_in "https://" img || str_in "http://" img = true).
    { apply orb_true_iff. by rewrite !str_in_spec. }
    by rewrite Hin.
  - intros Hs Hp.
    assert (Hin : str_in "https://" img || str_in "http://" img = false).
    { apply orb_false_iff.
      split; apply not_true_is_false; by rewrite str_in_spec. }
    rewrite Hin. unfold bind, emit, ret, raise.
    by destruct (image_files env !! img).
Qed.

Lemma image_reference_witness :
  read_image (image_args "see http://x/cat.png" vision_model None)
    (terminal []) empty_store =
    (Ok (Some "see http://x/cat.png"), empty_store, []).
Proof.
  apply (image_reference
           (image_args "see http://x/cat.png" vision_model None)
           (terminal []) empty_store "see http://x/cat.png");
    [reflexivity | discriminate | reflexivity |].
  right. by exists "see ", "x/cat.png".
Defined.

Lemma existsb_quiet (P : Event -> Prop) (f : Event -> bool) evs :
  Forall P evs -> (forall ev, P ev -> f ev = false) -> existsb f evs = false.
Proof.
  intros Hall Hf. induction Hall as [|ev evs Hev _ IH]; [done|].
  simpl. by rewrite (Hf _ Hev), IH.
Qed.

Lemma stdin_events_quiet a env :
  Forall (fun ev => ev = EvStdinRead) (stdin_events a env).
Proof.
  unfold stdin_events.
  destruct (stdin_passed env && negb (truthy (repl a)));
    by repeat constructor.
Qed.

(** The log of an invocation with --tokenize. *)
Lemma tokenize_log a env st :
  tokenize a = true ->
  store_of (main a env st) = st /\
  Forall (fun ev => ev = EvStdinRead \/ setup_event ev = true)
    (events_of (main a env st)).
Proof.
  intros Htok. rewrite main_eq.
  assert (Hstdin : Forall (fun ev => ev = EvStdinRead \/ setup_event ev = true)
                     (stdin_events a env)).
  { eapply Forall_impl; [apply stdin_events_quiet|]. by left. }
  assert (Hsetup : forall evs, Forall (fun ev => setup_event ev = true) evs ->
            Forall (fun ev => ev = EvStdinRead \/ setup_event ev = true) evs).
  { intros evs H. eapply Forall_impl; [exact H|]. by right. }
  repeat case_match; try done.
  unfold store_of, events_of. simpl. rewrite generate_eq.
  destruct (read_image_obeys a env st) as [Himg _].
  destruct (resolve_role_obeys a env st) as [Hrole _].
  destruct (print_tokens_obeys a env
              (if editor a then Some (edited_prompt env)
               else effective_prompt a env) st) as [Hprint _].
  assert (Hed : Forall (fun ev => setup_event ev = true)
                  (if editor a then [EvEditor] else [])).
  { destruct (editor a); by repeat constructor. }
  rewrite Htok.
  destruct (result_of (read_image a env st));
    [destruct (result_of (resolve_role a env st))|]; simpl;
    (split; [done|]); repeat apply Forall_app_2; auto.
Qed.

(** X4: --tokenize never generates (lines 192 to 198): whatever the
    other options are, such an invocation calls no handler and no
    remote model, starts no REPL, does not enter the shell execution
    loop, and leaves the chat sessions and the cache as they were. *)
Theorem tokenize_never_generates (a : Args) (env : Env) (st : Store) :
  tokenize a = true ->
  store_of (main a env st) = st /\
  existsb is_completion_call (events_of (main a env st)) = false /\
  existsb is_repl_start (events_of (main a env st)) = false /\
  loop_entered (events_of (main a env st)) = false /\
  existsb is_run_command (events_of (main a env st)) = false.
Proof.
  intros Htok. destruct (tokenize_log a env st Htok) as [Hst Hall].
  split; [done|].
  split_and!; eapply existsb_quiet; try exact Hall;
    intros ev [->|Hev]; try done; by destruct ev.
Qed.

Lemma tokenize_never_generates_witness :
  store_of (main (chat_tokenize_args "work" (Some "list files"))
              (terminal []) empty_store) = empty_store /\
  existsb is_completion_call
    (events_of (main (chat_tokenize_args "work" (Some "list files"))
                  (terminal []) empty_store)) = false.
Proof.
  split; apply (tokenize_never_generates
                  (chat_tokenize_args "work" (Some "list files"))
                  (terminal []) empty_store); reflexivity.
Defined.

(** X5: with --repl [main] does not take piped input into the prompt
    (lines 145 and 146): the [sys.stdin.read()] of line 146 is not
    called, whether or not input is piped, and the prompt handed on is
    the PROMPT argument as given. What the REPL reads by itself is the
    console input and is not meant here. *)
Theorem repl_skips_stdin_prompt (a : Args) (env : Env) (st : Store) :
  truthy (repl a) = true ->
  read_prompt a env st = (Ok (prompt a), st, []) /\
  effective_prompt a env = prompt a /\
  EvStdinRead ∉ events_of (main a env st).
Proof.
  intros Hrepl.
  assert (Hprompt : effective_prompt a env = prompt a).
  { unfold effective_prompt. by rewrite Hrepl, andb_false_r. }
  split_and!; [|done|].
  { rewrite read_prompt_eq, Hprompt. unfold stdin_events.
    by rewrite Hrepl, andb_false_r. }
  rewrite main_eq. unfold stdin_events. rewrite Hrepl, andb_false_r.
  destruct (generate_obeys (fun ev => ev <> EvStdinRead) (fun _ => True)
              a env (effective_prompt a env))
    with (st := st) as [Hall _]; [by intros [] | done |].
  repeat case_match; unfold events_of; simpl;
    try (by intros ?%elem_of_nil).
  rewrite Forall_forall in Hall. intros Hin. by apply Hall in Hin.
Qed.

Lemma repl_skips_stdin_prompt_witness :
  read_prompt (repl_args "work") (piped "ls -la") empty_store
    = (Ok None, empty_store, []) /\
  EvStdinRead ∉ events_of (main (repl_args "work") (piped "ls -la")
                             empty_store).
Proof.
  destruct (repl_skips_stdin_prompt (repl_args "work") (piped "ls -la")
              empty_store eq_refl) as (Hread & _ & Hlog).
  exact (conj Hread Hlog).
Defined.

Lemma shell_loop_with_prompt env a p fc lines :
  shell_loop env (with_prompt a p) fc lines = shell_loop env a fc lines.
Proof.
  induction lines as [|line rest IH]; [done|].
  simpl. by rewrite IH.
Qed.

Lemma complete_with_prompt a p env q image_url max_tokens role_class st :
  complete (with_prompt a p) env q image_url max_tokens role_class st
  = complete a env q image_url max_tokens role_class st.
Proof.
  rewrite !complete_eq. unfold execute_loop. simpl.
  destruct (truthy (repl a)); [done|].
  destruct (handle _ _ _ _ _ _ _ _ _ _ _) as [[[fc|e] st1] evs]; [|done].
  by rewrite shell_loop_with_prompt.
Qed.

Lemma generate_with_prompt a p env q q' st :
  editor a = true ->
  generate (with_prompt a p) env q st = generate a env q' st.
Proof.
  intros He. rewrite !generate_eq. simpl. rewrite He.
  change (read_image (with_prompt a p) env st) with (read_image a env st).
  change (resolve_role (with_prompt a p) env st)
    with (resolve_role a env st).
  change (max_tokens_of (with_prompt a p)) with (max_tokens_of a).
  destruct (result_of (read_image a env st)); [|done].
  destruct (result_of (resolve_role a env st)); [|done].
  destruct (tokenize a); [done|].
  by rewrite complete_with_prompt.
Qed.

(** X6: with --editor the PROMPT argument is not used (lines 183 and
    184): two invocations that differ in that argument alone behave
    alike in every respect, result, store and log. *)
Theorem editor_overrides_prompt (a : Args) (env : Env) (st : Store)
    (p1 p2 : option string) :
  editor a = true ->
  main (with_prompt a p1) env st = main (with_prompt a p2) env st.
Proof.
  intros He. rewrite !main_eq.
  unfold prompt_missing, stdin_events. simpl. rewrite He. simpl.
  rewrite !andb_false_r. simpl.
  repeat case_match; try done.
  by rewrite (generate_with_prompt a p1 env _
                (effective_prompt (with_prompt a p2) env) st He),
    <- (generate_with_prompt a p2 env
          (effective_prompt (with_prompt a p2) env)
          (effective_prompt (with_prompt a p2) env) st He).
Qed.

Lemma editor_overrides_prompt_witness :
  main (with_prompt (editor_args None) (Some "ignored")) (terminal [])
    empty_store =
  main (with_prompt (editor_args None) None) (terminal []) empty_store.
Proof.
  apply (editor_overrides_prompt (editor_args None) (terminal [])
           empty_store (Some "ignored") None).
  reflexivity.
Defined.

Lemma Forall_notin (P : Event -> bool) (x : Event) (evs : list Event) :
  P x = false -> Forall (fun ev => P ev = true) evs -> x ∉ evs.
Proof.
  intros HP Hall Hin. rewrite Forall_forall in Hall.
  apply Hall in Hin. congruence.
Qed.

(** In the loop a command is run only as the last thing, right after
    the answer e or y, and it is the command the loop was given. *)
Lemma shell_loop_run_command env a fc lines st pre post c s :
  events_of (shell_loop env a fc lines st)
    = pre ++ EvRunCommand c s :: post ->
  post = [] /\ c = fc /\ s = child_status env fc /\
  result_of (shell_loop env a fc lines st) = Ok tt /\
  exists pre' o,
    pre = pre' ++ [EvPrompt (prompt_default env) (Some o)] /\
    is_execute o = true.
Proof.
  revert st pre. induction lines as [|line rest IH]; intros st pre Hev.
  { destruct pre as [|? [|??]]; discriminate Hev. }
  rewrite shell_loop_cons in *.
  destruct (prompt_value _ line) as [option|]; [|by apply IH].
  destruct (is_execute option) eqn:Hexec.
  { destruct pre as [|p0 [|p1 [|??]]]; simpl in Hev; try discriminate Hev.
    injection Hev as <- <- <- <-.
    split_and!; [done..|]. by exists [], option. }
  destruct (String.eqb option "d") eqn:Hdesc; last first.
  { destruct pre as [|? [|??]]; discriminate Hev. }
  destruct (handle_obeys env (builtin_role env DESCRIBE_SHELL) None (Some fc)
              None (model a) (temperature a) (top_probability a) (cache a)
              None st) as [Hall _].
  unfold DefaultHandler_handle, events_of, result_of in *.
  destruct (handle _ _ _ _ _ _ _ _ _ _ _) as [[[x|e] st1] evs]; simpl in *.
  - destruct pre as [|p0 [|p1 pre]]; simpl in Hev; try discriminate Hev.
    injection Hev as <- <- Hev.
    pose proof (Forall_notin handler_event (EvRunCommand c s) evs
                  eq_refl Hall) as Hnotin.
    destruct (app_eq_split_notin _ _ _ _ _ Hev Hnotin) as (pre2 & -> & Hrec).
    destruct (IH st1 pre2 Hrec) as (-> & -> & -> & Hres & pre' & o & -> & Ho).
    split_and!; [done..|].
    exists (EvPrompt (prompt_default env) (Some option)
            :: EvGetRole DESCRIBE_SHELL :: evs ++ pre'), o.
    split; [|done]. simpl. by rewrite <- app_assoc.
  - destruct pre as [|p0 [|p1 pre]]; simpl in Hev; try discriminate Hev.
    injection Hev as <- <- Hev. exfalso.
    apply (Forall_notin handler_event (EvRunCommand c s) evs eq_refl Hall).
    rewrite Hev. apply elem_of_app. right. by left.
Qed.

(** X7: [main] runs a command only on request (lines 233 to 243). If
    a command is run at all, then --shell was given, standard input is
    a terminal, the command is the completion the handler returned for
    this invocation (for its prompt, its image and the role it
    resolved), the user had just answered e or y at the prompt, and it
    is the last thing [main] does before it returns. *)
Theorem command_runs_only_after_execute (a : Args) (env : Env) (st : Store)
    (pre post : list Event) (c : string) (s : Z) :
  events_of (main a env st) = pre ++ EvRunCommand c s :: post ->
  shell a = true /\ stdin_isatty env = true /\
  post = [] /\ s = child_status env c /\
  result_of (main a env st) = Ok tt /\
  (exists pre' o,
     pre = pre' ++ [EvPrompt (prompt_default env) (Some o)] /\
     is_execute o = true) /\
  (exists role_class image_url st1 evs,
     result_of (read_image a env st) = Ok image_url /\
     result_of (resolve_role a env st) = Ok role_class /\
     handle env role_class
       (if truthy (chat a) then Some (default "" (chat a)) else None)
       (final_prompt a env) image_url (model a) (temperature a)
       (top_probability a) (cache a) (max_tokens_of a) st
     = (Ok c, st1, evs)).
Proof.
  rewrite main_eq.
  assert (Hstdin : EvRunCommand c s ∉ stdin_events a env).
  { unfold stdin_events.
    destruct (stdin_passed env && negb (truthy (repl a)));
      [by intros ?%list_elem_of_singleton | by intros ?%elem_of_nil]. }
  assert (Hstop : forall l, Forall (fun ev => setup_event ev = true) l ->
            EvRunCommand c s ∉ stdin_events a env ++ l).
  { intros l Hl [?|Hin]%elem_of_app; [done|].
    by apply (Forall_notin setup_event (EvRunCommand c s) l). }
  assert (Hno : forall l, EvRunCommand c s ∉ l ->
            l = pre ++ EvRunCommand c s :: post -> False).
  { intros l Hl ->. apply Hl, elem_of_app. right. by left. }
  destruct (prompt_missing a env); [by intros ?%Hno|].
  destruct (two_or_more _ _ _); [by intros ?%Hno|].
  destruct (truthy (chat a) && truthy (repl a)); [by intros ?%Hno|].
  destruct (editor a && stdin_passed env); [by intros ?%Hno|].
  unfold events_of at 1, result_of at 1. cbn [fst snd].
  rewrite generate_eq. fold (final_prompt a env).
  destruct (read_image_obeys a env st) as [Himg _].
  destruct (resolve_role_obeys a env st) as [Hrole _].
  destruct (print_tokens_obeys a env (final_prompt a env) st) as [Hprint _].
  assert (Hed : Forall (fun ev => setup_event ev = true)
                  (if editor a then [EvEditor] else [])).
  { destruct (editor a); by repeat constructor. }
  destruct (result_of (read_image a env st)) as [image_url|e] eqn:Hread;
    [|by intros ?%(Hno _ (Hstop _ Himg))].
  destruct (result_of (resolve_role a env st)) as [role_class|e]
    eqn:Hresolve.
  2:{ cbn [events_of result_of fst snd]. intros Hev. exfalso.
      eapply Hno; [|exact Hev]. apply Hstop.
      by repeat apply Forall_app_2. }
  destruct (tokenize a).
  { cbn [events_of result_of fst snd]. intros Hev. exfalso.
    eapply Hno; [|exact Hev]. apply Hstop.
    by repeat apply Forall_app_2. }
  unfold events_of at 1, result_of at 1. cbn [fst snd].
  rewrite !app_assoc.
  set (setup := ((stdin_events a env ++ events_of (read_image a env st))
                 ++ (if editor a then [EvEditor] else []))
                ++ events_of (resolve_role a env st)).
  assert (Hsetup : EvRunCommand c s ∉ setup).
  { unfold setup. rewrite <- !app_assoc. apply Hstop.
    by repeat apply Forall_app_2. }
  intros Hev.
  destruct (app_eq_split_notin _ _ _ _ _ Hev Hsetup) as (pre1 & -> & Hc).
  clear Hev. revert Hc. rewrite complete_eq.
  destruct (truthy (repl a)).
  { intros Hc. exfalso.
    destruct (repl_loop_obeys env role_class (default "" (repl a)) (model a)
                (temperature a) (top_probability a) (cache a) (console env)
                st) as [Hall _].
    unfold ReplHandler_handle, bind, emit, events_of in *. simpl in *.
    destruct (repl_loop _ _ _ _ _ _ _ _ _) as [[??]?]. simpl in *.
    destruct pre1 as [|p0 pre1]; simpl in Hc; [discriminate Hc|].
    injection Hc as _ Hc.
    apply (Forall_notin repl_event (EvRunCommand c s) _ eq_refl Hall).
    rewrite Hc. apply elem_of_app. right. by left. }
  destruct (handle_obeys env role_class
              (if truthy (chat a) then Some (default "" (chat a)) else None)
              (final_prompt a env) image_url (model a) (temperature a)
              (top_probability a) (cache a) (max_tokens_of a) st)
    as [Hall _].
  destruct (handle _ _ _ _ _ _ _ _ _ _ _) as [[[fc|e] st1] evs] eqn:Hh;
    unfold events_of, result_of in *; simpl in *.
  2:{ intros Hc. exfalso.
      apply (Forall_notin handler_event (EvRunCommand c s) _ eq_refl Hall).
      rewrite Hc. apply elem_of_app. right. by left. }
  intros Hc.
  pose proof (Forall_notin handler_event (EvRunCommand c s) _ eq_refl Hall)
    as Hnotin.
  destruct (app_eq_split_notin _ _ _ _ _ Hc Hnotin) as (pre2 & -> & Hloop).
  clear Hc. revert Hloop. unfold execute_loop, stdin_passed.
  destruct (shell a); simpl; [|by destruct pre2].
  destruct (stdin_isatty env); simpl; [|by destruct pre2].
  intros Hloop.
  destruct (shell_loop_run_command env a fc (console env) st1 pre2 post c s
              Hloop) as (-> & -> & -> & Hres & pre' & o & -> & Ho).
  split_and!; [done..| |].
  - exists (setup ++ evs ++ pre'), o. split; [|done].
    by rewrite <- !app_assoc.
  - exists role_class, image_url, st1, evs. by split_and!.
Qed.

Lemma command_runs_only_after_execute_witness :
  shell (shell_args (Some "list files")) = true /\
  result_of (main (shell_args (Some "list files")) (terminal ["e"])
               empty_store) = Ok tt.
Proof.
  pose proof (command_runs_only_after_execute
                (shell_args (Some "list files")) (terminal ["e"])
                empty_store
                [EvCheckGet true false false;
                 EvHandle (builtin_role (terminal ["e"]) SHELL) None;
                 EvRemote
                   {| messages :=
                        [{| msg_role := system;
                            content := "Answer with one shell command.";
                            image_ref := None |};
                         {| msg_role := user; content := "list files";
                            image_ref := None |}];
                      req_model := "gpt-4"; req_temperature := 0;
                      req_top_p := 1; req_max_tokens := None |};
                 EvPrint "ls -la"; EvPrompt "a" (Some "e")]
                [] "ls -la" 3 eq_refl) as (Hshell & _ & _ & _ & Hres & _).
  exact (conj Hshell Hres).
Defined.

(** X8: an empty answer at the prompt does what the configuration
    says (lines 234 to 243): with DEFAULT_EXECUTE_SHELL_CMD set to
    "true" it runs the command, and with anything else, or no setting,
    it ends the loop without running it. *)
Theorem enter_takes_configured_default (env : Env) (a : Args) (fc : string)
    (rest : list string) (st : Store) :
  shell_loop env a fc ("" :: rest) st =
    if bool_decide (cfg_get env "DEFAULT_EXECUTE_SHELL_CMD" = Some "true")
    then (Ok tt, st, [EvPrompt "e" (Some "e");
                      EvRunCommand fc (child_status env fc)])
    else (Ok tt, st, [EvPrompt "a" (Some "a")]).
Proof.
  rewrite shell_loop_cons. unfold prompt_default.
  by case_bool_decide.
Qed.

Lemma lower_ascii_idemp (c : ascii) :
  lower_ascii (lower_ascii c) = lower_ascii c.
Proof. by destruct c as [[] [] [] [] [] [] [] []]. Qed.

Lemma casefold_idemp (s : string) : casefold (casefold s) = casefold s.
Proof.
  induction s as [|c s IH]; [done|].
  simpl. by rewrite lower_ascii_idemp, IH.
Qed.

Lemma casefold_empty (s : string) :
  String.eqb (casefold s) "" = String.eqb s "".
Proof. by destruct s. Qed.

(** X9: the answer at the prompt is read without regard to case (line
    236): a line and its lower-case form are the same answer, and the
    loop behaves alike on both. *)
Theorem answer_ignores_case (env : Env) (a : Args) (fc : string)
    (line : string) (rest : list string) (st : Store) (dflt : string) :
  prompt_value dflt (casefold line) = prompt_value dflt line /\
  shell_loop env a fc (casefold line :: rest) st
  = shell_loop env a fc (line :: rest) st.
Proof.
  assert (Hvalue : forall d,
    prompt_value d (casefold line) = prompt_value d line).
  { intros d. unfold prompt_value. rewrite casefold_empty.
    destruct (String.eqb line ""); [done|].
    unfold Choice_convert. by rewrite casefold_idemp. }
  split; [apply Hvalue|]. by rewrite !shell_loop_cons, Hvalue.
Qed.

(** What one handler call logs: its own arguments. *)
Lemma handle_log env r cid p image_url mdl t tp caching mt :
  obeys (fun ev => match ev with
                   | EvHandle _ c => c = cid
                   | EvSessionCommit c => cid = Some c
                   | EvRemote req =>
                       req_model req = mdl /\ req_temperature req = t /\
                       req_top_p req = tp /\ req_max_tokens req = mt
                   | EvPrint _ => True
                   | _ => False
                   end)
        (fun _ => True)
    (handle env r cid p image_url mdl t tp caching mt).
Proof. unfold handle, get_or_compute, remote_call. obeys_auto. Qed.

Lemma truthy_Some (o : option string) :
  truthy o = true -> o = Some (default "" o).
Proof. by destruct o. Qed.

Lemma max_tokens_of_cases a :
  max_tokens_of a = None \/
  max_tokens_of a = Some 4096%Z /\ model a = vision_model.
Proof.
  unfold max_tokens_of.
  destruct (String.eqb_spec (model a) vision_model); auto.
Qed.

(** The log of [generate] names no session and no model but those of
    the invocation. *)
Lemma generate_log a env p :
  obeys (fun ev => session_of_invocation a ev /\ request_of_invocation a ev)
        (fun _ => True) (generate a env p).
Proof.
  assert (Hsetup : forall A (m : M A),
    obeys (fun ev => setup_event ev = true)
          (fun e => setup_error e = true) m ->
    obeys (fun ev => session_of_invocation a ev /\
                     request_of_invocation a ev) (fun _ => True) m).
  { intros A m Hm. eapply obeys_weaken; [exact Hm| |done].
    by intros []. }
  assert (Hhandle : forall r cid q img mt,
    (cid = None \/
     (truthy (chat a) = true /\ chat a = cid) \/
     (truthy (repl a) = true /\ repl a = cid)) ->
    (mt = None \/ mt = Some 4096%Z /\ model a = vision_model) ->
    obeys (fun ev => session_of_invocation a ev /\
                     request_of_invocation a ev) (fun _ => True)
      (handle env r cid q img (model a) (temperature a) (top_probability a)
         (cache a) mt)).
  { intros r cid q img mt Hcid Hmt.
    eapply obeys_weaken; [apply handle_log| |done].
    intros [] Hev; simpl in *; try done.
    - subst. destruct cid as [c|]; [|done]. split; [|done].
      destruct Hcid as [?|[[??]|[??]]]; [done|by left|by right].
    - destruct Hev as (? & ? & ? & Hm). split; [done|].
      split_and!; [done..|]. by rewrite Hm.
    - subst. split; [|done].
      destruct Hcid as [?|[[??]|[??]]]; [done|by left|by right]. }
  unfold generate, complete, execute_loop.
  apply obeys_bind; [apply Hsetup, read_image_obeys|intros image_url].
  cbv zeta.
  apply obeys_bind.
  { destruct (editor a); [|apply obeys_ret].
    apply obeys_bind; [apply Hsetup, get_edited_prompt_obeys|].
    intros; apply obeys_ret. }
  intros p'.
  apply obeys_bind; [apply Hsetup, resolve_role_obeys|intros role_class].
  destruct (tokenize a); [apply Hsetup, print_tokens_obeys|].
  apply obeys_bind.
  { destruct (truthy (repl a)) eqn:Hrepl; [|apply obeys_ret].
    unfold ReplHandler_handle.
    apply obeys_bind; [by apply obeys_emit|intros _].
    induction (console env) as [|line rest IH]; simpl.
    - apply obeys_bind; [by apply obeys_emit|intros _].
      by apply obeys_raise.
    - destruct (String.eqb line "").
      + apply obeys_bind; [by apply obeys_emit|intros _].
        by apply obeys_raise.
      + apply obeys_bind.
        * apply Hhandle; [|by left]. right. right.
          split; [done|]. by apply truthy_Some.
        * intros full_text.
          apply obeys_bind; [by apply obeys_emit|intros _; apply IH]. }
  intros _.
  apply obeys_bind.
  { fold (max_tokens_of a). unfold ChatHandler_handle, DefaultHandler_handle.
    destruct (truthy (chat a)) eqn:Hchat.
    - apply Hhandle; [|apply max_tokens_of_cases]. right. left.
      split; [done|]. by apply truthy_Some.
    - apply Hhandle; [by left|apply max_tokens_of_cases]. }
  intros full_completion.
  destruct (shell a && negb (stdin_passed env)); [|apply obeys_ret].
  induction (console env) as [|line rest IH]; simpl.
  - apply obeys_bind; [by apply obeys_emit|intros _]. by apply obeys_raise.
  - destruct (prompt_value _ line) as [option|]; [|apply IH].
    apply obeys_bind; [by apply obeys_emit|intros _].
    destruct (is_execute option); [by apply obeys_emit|].
    destruct (String.eqb option "d"); [|apply obeys_ret].
    apply obeys_bind; [|intros r].
    { unfold get_role. apply obeys_bind; [by apply obeys_emit|intros _].
      apply obeys_ret. }
    apply obeys_bind; [|intros _; apply IH].
    unfold DefaultHandler_handle. apply Hhandle; by left.
Qed.

Lemma main_log a env st :
  Forall (fun ev => session_of_invocation a ev /\ request_of_invocation a ev)
    (events_of (main a env st)).
Proof.
  rewrite main_eq.
  assert (Hstdin : Forall (fun ev => session_of_invocation a ev /\
                                     request_of_invocation a ev)
                     (stdin_events a env)).
  { eapply Forall_impl; [apply stdin_events_quiet|]. by intros ? ->. }
  destruct (generate_log a env (effective_prompt a env) st) as [Hgen _].
  repeat case_match; try done.
  unfold events_of at 1. cbn [snd]. by apply Forall_app_2.
Qed.

(** X10: [main] stays with the session of the invocation (lines 200
    to 231 and 245): every handler call in the log carries either no
    chat id or the one given with --chat or --repl, and a session is
    committed only under one of these two ids. Without --chat and
    --repl no handler call carries a chat id and nothing is
    committed. *)
Theorem session_of_invocation_only (a : Args) (env : Env) (st : Store) :
  Forall (session_of_invocation a) (events_of (main a env st)) /\
  (truthy (chat a) = false -> truthy (repl a) = false ->
   Forall (fun ev => match ev with
                     | EvHandle _ c => c = None
                     | EvSessionCommit _ => False
                     | _ => True
                     end) (events_of (main a env st))).
Proof.
  pose proof (main_log a env st) as Hlog. split.
  - eapply Forall_impl; [exact Hlog|]. by intros ? [? _].
  - intros Hchat Hrepl. eapply Forall_impl; [exact Hlog|].
    intros [] [Hs _]; simpl in *; try done.
    + destruct chat_id; [|done]. destruct Hs as [[??]|[??]]; congruence.
    + destruct Hs as [[??]|[??]]; congruence.
Qed.

(** X11: the sampling parameters of the invocation reach every remote
    request (lines 202 to 252): each request in the log names --model,
    --temperature and --top-probability as given, and carries a cap on
    the tokens, which is then 4096, only when the model is
    gpt-4-vision-preview. *)
Theorem request_of_invocation_only (a : Args) (env : Env) (st : Store) :
  Forall (request_of_invocation a) (events_of (main a env st)).
Proof.
  eapply Forall_impl; [apply main_log|]. by intros ? [_ ?].
Qed.

(** X12: [main] ends in MissingParameter in exactly one situation
    (lines 148 and 149): no PROMPT argument, nothing piped, no --editor
    and no --repl. Each of the last three makes the argument
    optional, and nothing later in [main] raises this error. *)
Theorem missing_parameter_iff (a : Args) (env : Env) (st : Store) :
  (exists h t, result_of (main a env st) = Err (MissingParameter h t)) <->
  stdin_isatty env = true /\ truthy (prompt a) = false /\
  editor a = false /\ truthy (repl a) = false.
Proof.
  assert (Hmissing : prompt_missing a env = true <->
    stdin_isatty env = true /\ truthy (prompt a) = false /\
    editor a = false /\ truthy (repl a) = false).
  { unfold prompt_missing, stdin_passed.
    rewrite !andb_true_iff, !negb_true_iff, negb_false_iff. tauto. }
  rewrite <- Hmissing, main_eq.
  destruct (prompt_missing a env).
  { split; [done|]. intros _. by exists "PROMPT", "string". }
  split; [|done]. intros (h & t & Hres). exfalso. revert Hres.
  repeat case_match; try done.
  unfold result_of at 1. cbn [fst].
  apply generate_no_missing_parameter.
Qed.
